(** * Words API (backend/main.py): loader and listing handler

    A shallow embedding of [backend/main.py]: the memoized CSV loader
    [load_words] and the handler [get_words] of [GET /api/words/], with the
    Python values they work on.

    - A Python [str] is a list of Unicode code points.
    - A [dict] is a finite map from string keys to Python values.
    - [list] objects live in a heap and are passed by reference, so that
      "the cached list" and "a new list" are different things.
    - The functions run in a state and exception monad over the heap, the
      slot of [lru_cache] and a counter of executions of the loader body. *)

From Stdlib Require Import ZArith NArith List String Ascii Bool Lia.
From stdpp Require Import base option list gmap strings fin_maps.

Local Open Scope Z_scope.

(** ** Python strings *)

Module PyStr.

(** A code point. *)
Abbreviation char := N.

Abbreviation str := (list N).

(** A literal, from its ASCII spelling. *)
Definition lit (s : string) : str :=
  map N_of_ascii (list_ascii_of_string s).

(** [Py_UNICODE_ISSPACE]: the characters [str.strip()] removes. *)
Definition isspace (c : char) : bool :=
  ((9 <=? c) && (c <=? 13) || (28 <=? c) && (c <=? 32)
   || (c =? 133) || (c =? 160) || (c =? 5760)
   || (8192 <=? c) && (c <=? 8202)
   || (c =? 8232) || (c =? 8233) || (c =? 8239) || (c =? 8287)
   || (c =? 12288))%N.

Fixpoint lstrip (s : str) : str :=
  match s with
  | c :: s' => if isspace c then lstrip s' else s
  | [] => []
  end.

Definition rstrip (s : str) : str := rev (lstrip (rev s)).

(** [s.strip()] *)
Definition strip (s : str) : str := rstrip (lstrip s).

(** Truth value of a string: non-empty. *)
Definition truthy (s : str) : bool :=
  match s with [] => false | _ :: _ => true end.

Fixpoint starts_with (p s : str) : bool :=
  match p, s with
  | [], _ => true
  | _ :: _, [] => false
  | a :: p', b :: s' => (a =? b)%N && starts_with p' s'
  end.

(** [needle in hay] *)
Fixpoint contains (needle hay : str) : bool :=
  starts_with needle hay
  || match hay with
     | [] => false
     | _ :: hay' => contains needle hay'
     end.

(** [str.lower()] on strings of ASCII characters; it is used to run the
    model, whose definitions take the lowering function as a parameter. *)
Definition ascii_lower_char (c : char) : char :=
  if ((65 <=? c) && (c <=? 90))%N then (c + 32)%N else c.

Definition ascii_lower (s : str) : str := map ascii_lower_char s.

End PyStr.

Import PyStr.

(** ** Python values, rows of the CSV reader, objects *)

Inductive pyval :=
| VNone
| VInt (n : Z)
| VStr (s : str).

(** A record of the API: a [dict] with string keys. *)
Abbreviation dict := (gmap string pyval).

(** A row as [csv.DictReader] yields it: the header's names mapped to a
    string, or to [None] where the line has fewer fields than the header. *)
Abbreviation row := (gmap string (option str)).

(** A reference to a [list] object. *)
Abbreviation loc := positive.

(** [d.get(k)] *)
Definition dict_get (d : dict) (k : string) : pyval := default VNone (d !! k).

(** [row.get(k)]; [None] is Python's [None]. *)
Definition row_get (r : row) (k : string) : option str := default None (r !! k).

(** [v or ""] on a string or [None]. *)
Definition or_empty (v : option str) : str :=
  match v with
  | Some s => if truthy s then s else []
  | None => []
  end.

(** [v or ""] on any value: [None], [0] and [""] are false. *)
Definition py_or_empty (v : pyval) : pyval :=
  match v with
  | VNone => VStr []
  | VInt n => if n =? 0 then VStr [] else v
  | VStr s => if truthy s then v else VStr []
  end.

(** [v or d] on an optional integer: [None] and [0] are false. *)
Definition int_or (v : option Z) (d : Z) : Z :=
  match v with
  | Some n => if n =? 0 then d else n
  | None => d
  end.

(** [enumerate(l, start)] *)
Fixpoint enumerate {A : Type} (start : Z) (l : list A) : list (Z * A) :=
  match l with
  | [] => []
  | x :: l' => (start, x) :: enumerate (start + 1) l'
  end.

(** [PySlice_AdjustIndices] for step 1: a negative index counts from the
    end, and both ends are clamped to the list. *)
Definition adjust_index (len i : Z) : Z :=
  if i <? 0 then Z.max 0 (i + len) else Z.min i len.

(** [l[start:stop]] *)
Definition py_slice {A : Type} (l : list A) (start stop : Z) : list A :=
  let len := Z.of_nat (length l) in
  let a := adjust_index len start in
  let b := adjust_index len stop in
  take (Z.to_nat (b - a)) (drop (Z.to_nat a) l).

(** The nine textual columns, in the order of the [dict] literal. *)
Definition text_fields : list string :=
  ["word"; "pronunciation"; "definition"; "example"; "audio"; "image";
   "file"; "part_of_speech"; "word_uz"]%string.

(** [(row.get(k) or "").strip()] *)
Definition cell (r : row) (k : string) : str := strip (or_empty (row_get r k)).

(** The [dict] literal of [load_words]. *)
Definition make_item (idx : Z) (r : row) : dict :=
  <["id"%string := VInt idx]>
    (list_to_map (map (fun k => (k, VStr (cell r k))) text_fields)).

(** ** The backing source *)

(** What opening and reading a path that exists can raise, none of which
    [load_words] catches: [open] fails ([PermissionError],
    [IsADirectoryError]); the bytes are not UTF-8 text
    ([UnicodeDecodeError]); the reader refuses the text ([csv.Error], as for
    a field above its size limit); or anything else, by the name of its
    class. *)
Inductive read_error :=
| PermissionError
| IsADirectoryError
| UnicodeDecodeError
| CsvError
| OtherReadError (name : string).

(** The file system at [WORDS_CSV_PATH]: nothing there; something there on
    which opening or reading raises; or a file which the [DictReader] reads
    to its end, yielding [rows]. *)
Inductive source :=
| Missing
| Unreadable (e : read_error)
| Readable (rows : list row).

(** [WORDS_CSV_PATH.exists()] *)
Definition path_exists (src : source) : bool :=
  match src with
  | Missing => false
  | Unreadable _ | Readable _ => true
  end.

(** ** State and exceptions *)

(** The exceptions of the model. [AttributeError] is what [.lower()] raises
    on a value that is not a string, [RequestValidationError] what the
    framework raises on a parameter out of its bounds. [Dangling] is no
    exception of Python: it stands for a reference to no object, which no
    state of the process holds. *)
Inductive exn :=
| FileNotFoundError
| ReadError (e : read_error)
| AttributeError
| RequestValidationError
| Dangling.

Inductive outcome (A : Type) :=
| Raise (e : exn)
| Return (a : A).

Arguments Raise {A} e.
Arguments Return {A} a.

(** The process: its [list] objects, the slot of
    [lru_cache(maxsize=1)] on [load_words] (which takes no argument, so has
    one key), and how often the body of [load_words] was executed. *)
Record state := State {
  heap : gmap loc (list dict);
  cache : option loc;
  loads : nat
}.

(** The process when it starts. *)
Definition init : state := State ∅ None 0.

(** A computation: it returns or raises, and leaves a state either way. *)
Definition M (A : Type) : Type := state -> outcome A * state.

Definition ret {A : Type} (a : A) : M A := fun s => (Return a, s).

Definition raise {A : Type} (e : exn) : M A := fun s => (Raise e, s).

Definition bind {A B : Type} (m : M A) (k : A -> M B) : M B :=
  fun s =>
    match m s with
    | (Return a, s') => k a s'
    | (Raise e, s') => (Raise e, s')
    end.

Definition lift {A : Type} (o : outcome A) : M A := fun s => (o, s).

Declare Scope py_scope.
Delimit Scope py_scope with py.
Notation "x <- m ;; k" := (bind m (fun x => k))
  (at level 100, m at next level, right associativity) : py_scope.
Notation "m ;;; k" := (bind m (fun _ => k))
  (at level 100, right associativity) : py_scope.

(** A new [list] object. *)
Definition alloc (xs : list dict) : M loc :=
  fun s =>
    let l := fresh (dom (heap s)) in
    (Return l, State (<[l := xs]> (heap s)) (cache s) (loads s)).

(** The elements of a [list] object. *)
Definition deref (l : loc) : M (list dict) :=
  fun s =>
    match heap s !! l with
    | Some xs => (Return xs, s)
    | None => (Raise Dangling, s)
    end.

(** One more execution of the body of [load_words]. *)
Definition count_load : M unit :=
  fun s => (Return tt, State (heap s) (cache s) (S (loads s))).

(** ** The loader *)

(** Opening the file and iterating the [DictReader] to its end. *)
Definition read_rows (src : source) : M (list row) :=
  match src with
  | Missing => raise FileNotFoundError
  | Unreadable e => raise (ReadError e)
  | Readable rows => ret rows
  end.

(** The list [items] after the loop over [enumerate(reader, start=1)]. *)
Definition items_of_rows (rows : list row) : list dict :=
  map (fun '(idx, r) => make_item idx r) (enumerate 1 rows).

(** The body of [load_words]. *)
Definition load_words_body (src : source) : M loc :=
  (count_load ;;;
   if negb (path_exists src) then raise FileNotFoundError
   else
     rows <- read_rows src ;;
     alloc (items_of_rows rows))%py.

(** [@lru_cache(maxsize=1)] on a function of no argument: a hit returns the
    stored reference; a miss runs the body and stores what it returns; an
    exception is stored nowhere. *)
Definition lru_cache (body : M loc) : M loc :=
  fun s =>
    match cache s with
    | Some l => (Return l, s)
    | None =>
        match body s with
        | (Return l, s') => (Return l, State (heap s') (Some l) (loads s'))
        | (Raise e, s') => (Raise e, s')
        end
    end.

Definition load_words (src : source) : M loc :=
  lru_cache (load_words_body src).

(** ** The listing handler *)

(** The ["meta"] object of a paginated response. *)
Record meta := Meta {
  meta_total : Z;
  meta_page : Z;
  meta_limit : Z;
  meta_pages : Z;
  meta_q : str
}.

(** What [get_words] returns: a [list], or the [dict] with ["meta"] and
    ["items"]. *)
Inductive response :=
| Bare (items : loc)
| Envelope (m : meta) (items : loc).

(** [a or b] on booleans that may raise: [b] is not evaluated when [a] is
    true. *)
Definition or_else (a b : outcome bool) : outcome bool :=
  match a with
  | Raise e => Raise e
  | Return true => Return true
  | Return false => b
  end.

(** A list comprehension [[x for x in l if p x]]. *)
Fixpoint comprehension (p : dict -> outcome bool) (l : list dict)
  : outcome (list dict) :=
  match l with
  | [] => Return []
  | x :: l' =>
      match p x with
      | Raise e => Raise e
      | Return b =>
          match comprehension p l' with
          | Raise e => Raise e
          | Return r => Return (if b then x :: r else r)
          end
      end
  end.

(** [any(v is not None for v in (q, page, limit))] *)
Definition any_supplied (q : option str) (page limit : option Z) : bool :=
  bool_decide (is_Some q) || bool_decide (is_Some page)
  || bool_decide (is_Some limit).

(** [(total + limit_value - 1) // limit_value if limit_value else 1];
    [Z.div] rounds down, as [//] does. *)
Definition page_count (total limit_value : Z) : Z :=
  if limit_value =? 0 then 1 else (total + limit_value - 1) / limit_value.

(** The fields the search looks at, in the order of the [or] chain. *)
Definition searched_fields : list string :=
  ["word"; "definition"; "example"; "word_uz"; "part_of_speech"]%string.

(** [Query(default=None, ge=1)] *)
Definition valid_page (page : option Z) : bool :=
  match page with
  | Some p => 1 <=? p
  | None => true
  end.

(** [Query(default=None, ge=1, le=500)] *)
Definition valid_limit (limit : option Z) : bool :=
  match limit with
  | Some l => (1 <=? l) && (l <=? 500)
  | None => true
  end.

(** What a client reads in a response: the elements of the lists. *)
Inductive body :=
| JsonArray (items : list dict)
| JsonObject (m : meta) (items : list dict).

Definition render (s : state) (r : response) : option body :=
  match r with
  | Bare l => JsonArray <$> heap s !! l
  | Envelope m l => JsonObject m <$> heap s !! l
  end.

Section Handler.

(** [str.lower], for all of Unicode. *)
Variable lower : str -> str.

(** [(item.get(k) or "").lower()]; an integer has no [lower]. *)
Definition lowered (item : dict) (k : string) : outcome str :=
  match py_or_empty (dict_get item k) with
  | VStr s => Return (lower s)
  | VInt _ | VNone => Raise AttributeError
  end.

(** [needle in (item.get(k) or "").lower()] *)
Definition field_has (needle : str) (item : dict) (k : string) : outcome bool :=
  match lowered item k with
  | Return h => Return (contains needle h)
  | Raise e => Raise e
  end.

(** The condition of the comprehension. *)
Definition matches (needle : str) (item : dict) : outcome bool :=
  or_else (field_has needle item "word")
    (or_else (field_has needle item "definition")
       (or_else (field_has needle item "example")
          (or_else (field_has needle item "word_uz")
             (field_has needle item "part_of_speech")))).

(** The variable [filtered]: the list [all_words] itself, or a new list. *)
Definition filter_words (q : option str) (all_words : loc) : M loc :=
  (match q with
   | Some qs =>
       if truthy (strip qs) then
         let needle := lower (strip qs) in
         ws <- deref all_words ;;
         found <- lift (comprehension (matches needle) ws) ;;
         alloc found
       else ret all_words
   | None => ret all_words
   end)%py.

(** The handler of [GET /api/words/], on parameters the framework has
    parsed: [None] is a parameter that the request does not have. *)
Definition get_words (src : source) (q : option str) (page limit : option Z)
  : M response :=
  (all_words <- load_words src ;;
   let wants_pagination := any_supplied q page limit in
   filtered <- filter_words q all_words ;;
   if negb wants_pagination then ret (Bare filtered)
   else
     let page_value := int_or page 1 in
     let limit_value := int_or limit 50 in
     fs <- deref filtered ;;
     let total := Z.of_nat (length fs) in
     let start := (page_value - 1) * limit_value in
     let end_ := start + limit_value in
     items <- alloc (py_slice fs start end_) ;;
     let pages := page_count total limit_value in
     ret (Envelope (Meta total page_value limit_value pages (or_empty q))
            items))%py.

(** The route [GET /api/words/]: the framework checks the bounds of the
    [Query] declarations, then calls the handler. *)
Definition route_get_words (src : source) (q : option str)
    (page limit : option Z) : M response :=
  if valid_page page && valid_limit limit then get_words src q page limit
  else raise RequestValidationError.

End Handler.

(** ** Requests in sequence *)

Record request := Request {
  req_q : option str;
  req_page : option Z;
  req_limit : option Z
}.

(** The process after it has served the requests, each with the file system
    as it is when the request arrives. *)
Fixpoint serve (lower : str -> str) (reqs : list (source * request))
    (s : state) : state :=
  match reqs with
  | [] => s
  | (src, r) :: reqs' =>
      serve lower reqs'
        (snd (get_words lower src (req_q r) (req_page r) (req_limit r) s))
  end.

(** ** Calls of [load_words] from several threads

    The handler is a plain [def], which the framework runs on a pool of
    threads. A call of the function wrapped by [lru_cache] looks the key up,
    and after a miss runs the body with no lock held; other threads run in
    between. When the body returns, the result is stored unless the key has
    been stored during the call; the caller gets the list it built. *)

Inductive thread :=
| Calling
| Running
| Finished (o : outcome loc).

Record world := World {
  shared : state;
  threads : list thread
}.

(** Store the result after a miss, unless the key is there by now. *)
Definition store (l : loc) (s : state) : state :=
  State (heap s)
    (match cache s with Some c => Some c | None => Some l end)
    (loads s).

Inductive step (src : source) : world -> world -> Prop :=
| step_hit w i l :
    threads w !! i = Some Calling ->
    cache (shared w) = Some l ->
    step src w (World (shared w) (<[i := Finished (Return l)]> (threads w)))
| step_miss w i :
    threads w !! i = Some Calling ->
    cache (shared w) = None ->
    step src w (World (shared w) (<[i := Running]> (threads w)))
| step_return w i l s' :
    threads w !! i = Some Running ->
    load_words_body src (shared w) = (Return l, s') ->
    step src w (World (store l s') (<[i := Finished (Return l)]> (threads w)))
| step_raise w i e s' :
    threads w !! i = Some Running ->
    load_words_body src (shared w) = (Raise e, s') ->
    step src w (World s' (<[i := Finished (Raise e)]> (threads w))).

(** ** Predicates of the statements *)

(** A record as the API shows it: an integer ["id"] and the nine textual
    fields, each a string. *)
Definition record (d : dict) : Prop :=
  (exists n, d !! "id"%string = Some (VInt n))
  /\ forall k, k ∈ text_fields -> exists t, d !! k = Some (VStr t).

(** The cache, when it holds something, holds a list of records. *)
Definition inv (s : state) : Prop :=
  forall l, cache s = Some l ->
            exists ws, heap s !! l = Some ws /\ Forall record ws.

(** The text of a field of a record. *)
Definition text (d : dict) (k : string) : str :=
  match d !! k with
  | Some (VStr t) => t
  | _ => []
  end.

(** [needle] is a substring of [hay]. *)
Definition substring (needle hay : str) : Prop :=
  exists pre post, hay = pre ++ needle ++ post.

(** The needle is in one of the five searched fields, lowercased. *)
Definition hit (lower : str -> str) (needle : str) (d : dict) : Prop :=
  exists k, k ∈ searched_fields /\ substring needle (lower (text d k)).

Definition hitb (lower : str -> str) (needle : str) (d : dict) : bool :=
  existsb (fun k => contains needle (lower (text d k))) searched_fields.

(** [r] is [l] without the elements that do not satisfy [P], in the order
    of [l]. *)
Inductive Selects {A : Type} (P : A -> Prop) : list A -> list A -> Prop :=
| Selects_nil : Selects P [] []
| Selects_keep x l r : P x -> Selects P l r -> Selects P (x :: l) (x :: r)
| Selects_skip x l r : ~ P x -> Selects P l r -> Selects P (x :: l) r.

(** The source field of a row: the empty string when the column is not in
    the header, or not in the line. *)
Definition source_field (r : row) (k : string) : str :=
  match r !! k with
  | Some (Some t) => t
  | Some None | None => []
  end.

(** The list [filtered], as a function of the dataset. *)
Definition filtered_of (lower : str -> str) (q : option str) (ws : list dict)
  : list dict :=
  match q with
  | Some qs =>
      if truthy (strip qs) then List.filter (hitb lower (lower (strip qs))) ws
      else ws
  | None => ws
  end.

(** The meta object and the page of a filtered list. *)
Definition meta_of (fs : list dict) (q : option str) (page limit : option Z)
  : meta :=
  Meta (Z.of_nat (length fs)) (int_or page 1) (int_or limit 50)
    (page_count (Z.of_nat (length fs)) (int_or limit 50)) (or_empty q).

Definition page_of (fs : list dict) (page limit : option Z) : list dict :=
  py_slice fs ((int_or page 1 - 1) * int_or limit 50)
    ((int_or page 1 - 1) * int_or limit 50 + int_or limit 50).

(** [t] is [raw] without its leading and trailing white space. *)
Definition Trimmed (raw t : str) : Prop :=
  (exists pre post,
      raw = pre ++ t ++ post
      /\ forallb isspace pre = true /\ forallb isspace post = true)
  /\ match t with c :: _ => isspace c = false | [] => True end
  /\ match rev t with c :: _ => isspace c = false | [] => True end.

(** ** Data to run the model on *)

Module Examples.

Definition row_of (kvs : list (string * string)) : row :=
  list_to_map (map (fun '(k, v) => (k, Some (lit v))) kvs).

Definition three_rows : list row :=
  [row_of [("word", "Apple"); ("definition", "a fruit")];
   row_of [("word", "Banana"); ("definition", "a fruit")];
   row_of [("word", "Car"); ("definition", "a vehicle")]]%string.

(** The source of the three rows. *)
Definition fruit_source : source := Readable three_rows.

(** The process after the first call of the loader on the three rows. *)
Definition loaded : state := snd (load_words fruit_source init).

(** A row with white space around its word and no [audio] column, and a row
    that is shorter than the header, so that its [audio] is [None]. *)
Definition ragged_rows : list row :=
  [row_of [("word", "  Pear "); ("definition", "a fruit")];
   <["audio" := None]> (row_of [("word", "Plum")])]%string.

(** Ten rows, for the arithmetic of pages. *)
Definition ten_rows : list row :=
  replicate 10 (row_of [("word", "w")]%string).

(** The response a client reads, or [None] when the request raises. *)
Definition response_of (m : M response) (s : state) : option body :=
  match m s with
  | (Return r, s') => render s' r
  | (Raise _, _) => None
  end.

(** The ["word"] of each item of a response. *)
Definition words_of (b : option body) : list str :=
  match b with
  | Some (JsonArray items) | Some (JsonObject _ items) =>
      map (fun d => text d "word") items
  | None => []
  end.

End Examples.
(** ** What a request answers *)

(** The body a client reads when the computation returns; [None] when it
    raises. *)
Definition answer (m : M response) (s : state) : option body :=
  match m s with
  | (Return r, s') => render s' r
  | (Raise _, _) => None
  end.

(** The records of a body: the array, or the ["items"] of the envelope. *)
Definition items_of_body (b : body) : list dict :=
  match b with
  | JsonArray items | JsonObject _ items => items
  end.

(** The process has loaded the dataset [ws]. *)
Definition dataset (s : state) (ws : list dict) : Prop :=
  exists l, cache s = Some l /\ heap s !! l = Some ws /\ Forall record ws.

(** The ["id"] of a record. *)
Definition item_id (d : dict) : option Z :=
  match d !! "id"%string with
  | Some (VInt n) => Some n
  | _ => None
  end.

(** White space, character by character: the control characters from tab to
    carriage return and from file separator to unit separator, the space,
    next line, the no-break space, the Ogham space mark, the spaces from en
    quad to hair space, the line and paragraph separators, the narrow
    no-break space, the medium mathematical space and the ideographic
    space. *)
Definition white_space : list N :=
  [9; 10; 11; 12; 13; 28; 29; 30; 31; 32; 133; 160; 5760;
   8192; 8193; 8194; 8195; 8196; 8197; 8198; 8199; 8200; 8201; 8202;
   8232; 8233; 8239; 8287; 12288]%N.

(** [t] is [raw] without the white space at its two ends: what is cut is
    white space, and [t] neither starts nor ends with white space. *)
Definition Stripped (raw t : str) : Prop :=
  (exists pre post,
      raw = pre ++ t ++ post
      /\ Forall (fun c => c ∈ white_space) pre
      /\ Forall (fun c => c ∈ white_space) post)
  /\ (forall c t', t = c :: t' -> c ∉ white_space)
  /\ (forall c t', t = t' ++ [c] -> c ∉ white_space).

(** The threads that have not looked the key up yet. *)
Definition is_calling (t : thread) : bool :=
  match t with
  | Calling => true
  | Running | Finished _ => false
  end.

Definition calling (ts : list thread) : nat :=
  length (List.filter is_calling ts).

(** The threads that have missed and not returned yet. *)
Definition is_running (t : thread) : bool :=
  match t with
  | Running => true
  | Calling | Finished _ => false
  end.

Definition running (ts : list thread) : nat :=
  length (List.filter is_running ts).

(** * Tactics *)

(** One goal for each element of a literal list [H : k ∈ [a; b; ...]]. *)
Ltac cases_in H :=
  repeat (apply elem_of_cons in H as [-> | H]);
  try (by apply elem_of_nil in H).

(** A key is in a literal list of keys. *)
Ltac in_literal :=
  unfold searched_fields, text_fields;
  repeat (first [apply list_elem_of_here | apply list_elem_of_further]).


(** * Facts about strings *)

Lemma starts_with_spec (p s : str) :
  starts_with p s = true <-> exists post, s = p ++ post.
Proof.
  revert s. induction p as [|a p IH]; intros s; simpl.
  - split; [intros _; by exists s | done].
  - destruct s as [|b s]; simpl.
    + split; [done | intros [post Hp]; discriminate].
    + rewrite andb_true_iff, N.eqb_eq, IH. split.
      * intros [-> [post ->]]. by exists post.
      * intros [post Hp]. injection Hp as -> ->. eauto.
Qed.

Lemma contains_spec (needle hay : str) :
  contains needle hay = true <-> exists pre post, hay = pre ++ needle ++ post.
Proof.
  induction hay as [|c hay IH]; simpl.
  - rewrite orb_false_r, starts_with_spec. split.
    + intros [post Hp]. by exists [], post.
    + intros [pre [post Hp]]. destruct pre; [by exists post|discriminate].
  - rewrite orb_true_iff, starts_with_spec, IH. split.
    + intros [[post Hp] | [pre [post ->]]].
      * by exists [], post.
      * by exists (c :: pre), post.
    + intros [[|c' pre] [post Hp]].
      * left. by exists post.
      * right. injection Hp as -> ->. by exists pre, post.
Qed.

Lemma lstrip_split (s : str) :
  exists pre, s = pre ++ lstrip s /\ forallb isspace pre = true.
Proof.
  induction s as [|c s [pre [IH1 IH2]]]; simpl.
  - by exists [].
  - destruct (isspace c) eqn:Hc.
    + exists (c :: pre). simpl. rewrite Hc, IH2. split; [by f_equal | done].
    + by exists [].
Qed.

Lemma lstrip_head (s : str) :
  match lstrip s with c :: _ => isspace c = false | [] => True end.
Proof.
  induction s as [|c s IH]; simpl; [done|].
  destruct (isspace c) eqn:Hc; [done | by simpl].
Qed.

Lemma forallb_rev (f : char -> bool) (s : str) :
  forallb f (rev s) = forallb f s.
Proof.
  induction s as [|c s IH]; simpl; [done|].
  rewrite forallb_app, IH. simpl. rewrite andb_true_r. apply andb_comm.
Qed.

Lemma rstrip_split (s : str) :
  exists post, s = rstrip s ++ post /\ forallb isspace post = true.
Proof.
  unfold rstrip. destruct (lstrip_split (rev s)) as [pre [H1 H2]].
  exists (rev pre). split.
  - rewrite <- rev_app_distr, <- H1. by rewrite rev_involutive.
  - by rewrite forallb_rev.
Qed.

Lemma rstrip_last (s : str) :
  match rev (rstrip s) with c :: _ => isspace c = false | [] => True end.
Proof. unfold rstrip. rewrite rev_involutive. apply lstrip_head. Qed.

(** [rstrip] leaves the first character of a string that starts with a
    character that is not white space. *)
Lemma rstrip_head (c : char) (s : str) :
  isspace c = false -> exists s', rstrip (c :: s) = c :: s'.
Proof.
  intros Hc. unfold rstrip. simpl.
  assert (H : forall r, exists r', lstrip (r ++ [c]) = r' ++ [c]).
  { induction r as [|a r [r' IH]]; simpl.
    - rewrite Hc. by exists [].
    - destruct (isspace a); [by exists r' | by exists (a :: r)]. }
  destruct (H (rev s)) as [r' ->].
  rewrite rev_app_distr. simpl. eauto.
Qed.

(** What [strip] returns: the string without a prefix and a suffix of white
    space, and with no white space left at either end. *)
Theorem strip_spec (s : str) : Trimmed s (strip s).
Proof.
  unfold Trimmed, strip. split; [|split].
  - destruct (lstrip_split s) as [pre [H1 H2]].
    destruct (rstrip_split (lstrip s)) as [post [H3 H4]].
    exists pre, post. split; [|done].
    by rewrite <- H3.
  - pose proof (lstrip_head s) as Hh.
    destruct (lstrip s) as [|c t] eqn:E; [done|].
    destruct (rstrip_head c t Hh) as [s' ->]. done.
  - apply rstrip_last.
Qed.

Lemma strip_nil : strip [] = [].
Proof. reflexivity. Qed.

(** A string of white space only is blank after trimming. *)
Lemma strip_blank (s : str) : forallb isspace s = true -> strip s = [].
Proof.
  intros H. unfold strip.
  assert (E : lstrip s = []).
  { induction s as [|c s IH]; simpl in *; [done|].
    apply andb_true_iff in H as [-> H]. auto. }
  by rewrite E.
Qed.

(** The characters [isspace] accepts are the white space characters. *)
Lemma isspace_spec (c : N) : isspace c = true <-> c ∈ white_space.
Proof.
  split.
  - unfold isspace. intros H.
    repeat (apply orb_true_iff in H as [H | H]);
      repeat (apply andb_true_iff in H as [? ?]);
      repeat match goal with
             | H : (_ <=? _)%N = true |- _ => apply N.leb_le in H
             | H : (_ =? _)%N = true |- _ => apply N.eqb_eq in H
             end.
    all: assert (E : (c = 9 \/ c = 10 \/ c = 11 \/ c = 12 \/ c = 13 \/ c = 28 \/ c = 29 \/ c = 30 \/ c = 31 \/ c = 32 \/ c = 133 \/ c = 160 \/ c = 5760 \/ c = 8192 \/ c = 8193 \/ c = 8194 \/ c = 8195 \/ c = 8196 \/ c = 8197 \/ c = 8198 \/ c = 8199 \/ c = 8200 \/ c = 8201 \/ c = 8202 \/ c = 8232 \/ c = 8233 \/ c = 8239 \/ c = 8287 \/ c = 12288)%N) by lia.
    all: unfold white_space;
      repeat (destruct E as [-> | E];
              [repeat (first [apply list_elem_of_here
                             | apply list_elem_of_further])|]);
      subst c;
      repeat (first [apply list_elem_of_here | apply list_elem_of_further]).
  - intros H. unfold white_space in H. cases_in H; reflexivity.
Qed.

Lemma forallb_white_space (s : str) :
  forallb isspace s = true -> Forall (fun c => c ∈ white_space) s.
Proof.
  intros H. apply Forall_forall. intros c Hc. apply isspace_spec.
  rewrite forallb_forall in H. apply H. by apply list_elem_of_In.
Qed.

(** [strip] cuts the white space of the two ends, all of it and nothing
    else. *)
Lemma strip_stripped (s : str) : Stripped s (strip s).
Proof.
  destruct (strip_spec s) as ((pre & post & E & Hpre & Hpost) & Hhead & Hlast).
  split; [|split].
  - exists pre, post. auto using forallb_white_space.
  - intros c t' Et. rewrite Et in Hhead. rewrite <- isspace_spec. congruence.
  - intros c t' Et. rewrite Et, rev_app_distr in Hlast. simpl in Hlast.
    rewrite <- isspace_spec. congruence.
Qed.

Lemma truthy_nil (s : str) : truthy s = false <-> s = [].
Proof. destruct s; simpl; split; congruence. Qed.

Lemma truthy_cons (s : str) : truthy s = true <-> s <> [].
Proof. destruct s; simpl; split; congruence. Qed.

Lemma or_empty_cell (v : option str) :
  or_empty v = match v with Some t => t | None => [] end.
Proof. destruct v as [[|c t]|]; reflexivity. Qed.

(** * Facts about lists *)

Lemma enumerate_length {A : Type} (start : Z) (l : list A) :
  length (enumerate start l) = length l.
Proof. revert start. induction l; intros; simpl; [done | by rewrite IHl]. Qed.

Lemma enumerate_lookup {A : Type} (start : Z) (l : list A) (i : nat) (x : A) :
  l !! i = Some x -> enumerate start l !! i = Some (start + Z.of_nat i, x).
Proof.
  revert start i. induction l as [|y l IH]; intros start [|i] H;
    simpl in *; try done.
  - injection H as ->. do 2 f_equal. lia.
  - rewrite (IH _ _ H). do 2 f_equal. lia.
Qed.

Lemma py_slice_forward {A : Type} (l : list A) (start n : Z) :
  0 <= start -> 0 <= n ->
  py_slice l start (start + n) = take (Z.to_nat n) (drop (Z.to_nat start) l).
Proof.
  intros Hs Hn. unfold py_slice, adjust_index.
  set (len := Z.of_nat (length l)).
  assert (Hlen : 0 <= len) by (unfold len; lia).
  destruct (start <? 0) eqn:E1; [lia|].
  destruct (start + n <? 0) eqn:E2; [lia|].
  destruct (Z_le_gt_dec len start) as [Hge | Hlt].
  - rewrite (Z.min_r start len) by lia.
    rewrite !drop_ge by (unfold len in *; lia).
    by rewrite !take_nil.
  - rewrite (Z.min_l start len) by lia.
    destruct (Z_le_gt_dec (start + n) len) as [Hin | Hout].
    + rewrite Z.min_l by lia. f_equal. lia.
    + rewrite Z.min_r by lia.
      rewrite !take_ge; [done | |];
        rewrite length_drop; unfold len in *; lia.
Qed.

Lemma lookup_take_drop {A : Type} (l : list A) (a n i : nat) :
  take n (drop a l) !! i = if decide (i < n)%nat then l !! (a + i)%nat else None.
Proof.
  case_decide as Hi.
  - by rewrite lookup_take_lt, lookup_drop.
  - apply lookup_take_ge. lia.
Qed.

(** * Facts about the loader *)

Lemma make_item_id (idx : Z) (r : row) :
  make_item idx r !! "id"%string = Some (VInt idx).
Proof. reflexivity. Qed.

Lemma make_item_text (idx : Z) (r : row) (k : string) :
  k ∈ text_fields -> make_item idx r !! k = Some (VStr (cell r k)).
Proof. intros H. unfold text_fields in H. cases_in H; reflexivity. Qed.

Lemma make_item_record (idx : Z) (r : row) : record (make_item idx r).
Proof.
  split; [by exists idx|].
  intros k Hk. exists (cell r k). by apply make_item_text.
Qed.

Lemma cell_source_field (r : row) (k : string) :
  cell r k = strip (source_field r k).
Proof.
  unfold cell, source_field, row_get. rewrite or_empty_cell.
  by destruct (r !! k) as [[t|]|].
Qed.

Lemma items_of_rows_length (rows : list row) :
  length (items_of_rows rows) = length rows.
Proof. unfold items_of_rows. by rewrite length_map, enumerate_length. Qed.

Lemma items_of_rows_lookup (rows : list row) (i : nat) (r : row) :
  rows !! i = Some r ->
  items_of_rows rows !! i = Some (make_item (1 + Z.of_nat i) r).
Proof.
  intros H. unfold items_of_rows.
  apply (enumerate_lookup 1) in H.
  revert H. generalize (1 + Z.of_nat i) (enumerate 1 rows). intros n l.
  revert i. induction l as [|[j x] l IH]; intros [|i] H; simpl in *; try done.
  - by injection H as -> ->.
  - by apply IH.
Qed.

Lemma items_of_rows_records (rows : list row) :
  Forall record (items_of_rows rows).
Proof.
  unfold items_of_rows. generalize (enumerate 1 rows). intros l.
  induction l as [|[j x] l IH]; simpl; constructor; auto.
  apply make_item_record.
Qed.

(** ** Running the memoized loader *)

Lemma alloc_run (xs : list dict) (s : state) :
  alloc xs s
  = (Return (fresh (dom (heap s))),
     State (<[fresh (dom (heap s)) := xs]> (heap s)) (cache s) (loads s)).
Proof. reflexivity. Qed.

Lemma fresh_lookup (s : state) : heap s !! fresh (dom (heap s)) = None.
Proof. apply not_elem_of_dom, is_fresh. Qed.

Lemma lookup_alloc_old (s : state) (xs ys : list dict) (l : loc) :
  heap s !! l = Some ys ->
  <[fresh (dom (heap s)) := xs]> (heap s) !! l = Some ys.
Proof.
  intros H. rewrite lookup_insert_ne; [done|].
  intros <-. rewrite fresh_lookup in H. discriminate.
Qed.

Lemma load_words_body_run (src : source) (s : state) :
  load_words_body src s
  = match src with
    | Missing =>
        (Raise FileNotFoundError, State (heap s) (cache s) (S (loads s)))
    | Unreadable e =>
        (Raise (ReadError e), State (heap s) (cache s) (S (loads s)))
    | Readable rows =>
        (Return (fresh (dom (heap s))),
         State (<[fresh (dom (heap s)) := items_of_rows rows]> (heap s))
           (cache s) (S (loads s)))
    end.
Proof. by destruct src. Qed.

Lemma load_words_hit (src : source) (s : state) (l : loc) :
  cache s = Some l -> load_words src s = (Return l, s).
Proof. intros H. unfold load_words, lru_cache. by rewrite H. Qed.

Lemma load_words_miss (src : source) (s : state) :
  cache s = None ->
  load_words src s
  = match src with
    | Missing =>
        (Raise FileNotFoundError, State (heap s) None (S (loads s)))
    | Unreadable e =>
        (Raise (ReadError e), State (heap s) None (S (loads s)))
    | Readable rows =>
        (Return (fresh (dom (heap s))),
         State (<[fresh (dom (heap s)) := items_of_rows rows]> (heap s))
           (Some (fresh (dom (heap s)))) (S (loads s)))
    end.
Proof.
  intros H. unfold load_words, lru_cache.
  rewrite H, load_words_body_run. destruct src; simpl; by rewrite ?H.
Qed.

Lemma inv_init : inv init.
Proof. intros l H. discriminate. Qed.

(** After [load_words] has returned a list, the cache holds it, it is a list
    of records, and the objects that were there are as they were. *)
Lemma load_words_return (src : source) (s s1 : state) (l : loc) :
  inv s -> load_words src s = (Return l, s1) ->
  cache s1 = Some l
  /\ (exists ws, heap s1 !! l = Some ws /\ Forall record ws)
  /\ inv s1
  /\ (forall l0 xs, heap s !! l0 = Some xs -> heap s1 !! l0 = Some xs).
Proof.
  intros Hinv H. destruct (cache s) as [c|] eqn:Hc.
  - rewrite (load_words_hit _ _ _ Hc) in H. injection H as -> ->.
    repeat split; auto.
  - rewrite (load_words_miss _ _ Hc) in H.
    destruct src as [|e|rows]; try discriminate.
    injection H as <- <-. simpl.
    assert (Hl : <[fresh (dom (heap s)) := items_of_rows rows]> (heap s)
                 !! fresh (dom (heap s)) = Some (items_of_rows rows))
      by apply lookup_insert_eq.
    repeat split.
    + eexists. split; [exact Hl | apply items_of_rows_records].
    + intros l' Hl'. simpl in *. injection Hl' as <-.
      eexists. split; [exact Hl | apply items_of_rows_records].
    + intros l0 xs. apply lookup_alloc_old.
Qed.

Lemma load_words_raise (src : source) (s s1 : state) (e : exn) :
  load_words src s = (Raise e, s1) ->
  cache s = None /\ s1 = State (heap s) None (S (loads s)).
Proof.
  intros H. destruct (cache s) as [c|] eqn:Hc.
  - rewrite (load_words_hit _ _ _ Hc) in H. discriminate.
  - split; [done|]. rewrite (load_words_miss _ _ Hc) in H.
    destruct src; [| |discriminate]; by injection H as _ <-.
Qed.

(** * Facts about the handler *)

Lemma Selects_filter {A : Type} (f : A -> bool) (P : A -> Prop) (l : list A) :
  (forall x, f x = true <-> P x) -> Selects P l (List.filter f l).
Proof.
  intros Hf. induction l as [|x l IH]; simpl; [constructor|].
  destruct (f x) eqn:E.
  - apply Selects_keep; [by apply Hf | done].
  - apply Selects_skip; [|done]. rewrite <- Hf. congruence.
Qed.

Lemma Selects_length {A : Type} (P : A -> Prop) (l r : list A) :
  Selects P l r -> (length r <= length l)%nat.
Proof. induction 1; simpl; lia. Qed.

Lemma Selects_elem_of {A : Type} (P : A -> Prop) (l r : list A) (x : A) :
  Selects P l r -> (x ∈ r <-> x ∈ l /\ P x).
Proof.
  induction 1 as [|y l r Hy _ IH|y l r Hy _ IH].
  - split; [intros H | intros [H _]]; by apply elem_of_nil in H.
  - rewrite !elem_of_cons, IH. split.
    + intros [-> | [Hx HP]]; auto.
    + intros [[-> | Hx] HP]; auto.
  - rewrite elem_of_cons, IH. split.
    + intros [Hx HP]; auto.
    + intros [[-> | Hx] HP]; [contradiction | auto].
Qed.

Section HandlerFacts.

Variable lower : str -> str.

Lemma searched_are_text (k : string) : k ∈ searched_fields -> k ∈ text_fields.
Proof. intros H. unfold searched_fields in H. cases_in H; in_literal. Qed.

Lemma hitb_spec (needle : str) (d : dict) :
  hitb lower needle d = true <-> hit lower needle d.
Proof.
  unfold hitb, hit, substring. rewrite existsb_exists. split.
  - intros [k [Hk Hc]]. exists k. split; [by apply list_elem_of_In|].
    by apply contains_spec.
  - intros [k [Hk Hc]]. exists k. split; [by apply list_elem_of_In|].
    by apply contains_spec.
Qed.

Lemma lowered_text (d : dict) (k : string) (t : str) :
  d !! k = Some (VStr t) -> lowered lower d k = Return (lower t).
Proof.
  intros H. unfold lowered, dict_get. rewrite H. simpl. by destruct t.
Qed.

Lemma field_has_record (needle : str) (d : dict) (k : string) :
  record d -> k ∈ searched_fields ->
  field_has lower needle d k = Return (contains needle (lower (text d k))).
Proof.
  intros [_ Hr] Hk. destruct (Hr k (searched_are_text k Hk)) as [t Ht].
  unfold field_has, text. by rewrite (lowered_text d k t Ht), Ht.
Qed.

Lemma matches_record (needle : str) (d : dict) :
  record d -> matches lower needle d = Return (hitb lower needle d).
Proof.
  intros Hr. unfold matches, hitb.
  rewrite !(field_has_record needle d) by (done || in_literal).
  simpl. rewrite orb_false_r.
  by repeat match goal with |- context [contains ?n ?h] =>
                         destruct (contains n h); simpl end.
Qed.

Lemma comprehension_records (needle : str) (ws : list dict) :
  Forall record ws ->
  comprehension (matches lower needle) ws
  = Return (List.filter (hitb lower needle) ws).
Proof.
  induction 1 as [|d ws Hd _ IH]; simpl; [done|].
  by rewrite (matches_record needle d Hd), IH.
Qed.

Lemma filter_words_run (q : option str) (all_words : loc) (ws : list dict)
    (s : state) :
  heap s !! all_words = Some ws -> Forall record ws ->
  filter_words lower q all_words s
  = match q with
    | Some qs =>
        if truthy (strip qs) then
          (Return (fresh (dom (heap s))),
           State (<[fresh (dom (heap s)) := filtered_of lower q ws]> (heap s))
             (cache s) (loads s))
        else (Return all_words, s)
    | None => (Return all_words, s)
    end.
Proof.
  intros Hws Hrec. unfold filter_words, filtered_of.
  destruct q as [qs|]; [|done].
  destruct (truthy (strip qs)); [|done].
  unfold bind, deref, lift. rewrite Hws.
  by rewrite (comprehension_records _ ws Hrec).
Qed.

(** What [filter_words] leaves in the state, whatever it returns. *)
Lemma filter_words_frame (q : option str) (all_words : loc) (s s' : state)
    (o : outcome loc) :
  filter_words lower q all_words s = (o, s') ->
  cache s' = cache s /\ loads s' = loads s
  /\ (forall l xs, heap s !! l = Some xs -> heap s' !! l = Some xs)
  /\ (forall filtered, o = Return filtered ->
        filtered = all_words
        \/ heap s !! filtered = None /\ is_Some (heap s' !! filtered)).
Proof.
  unfold filter_words. intros H.
  assert (Hsame : (o, s') = (Return all_words, s) ->
                  cache s' = cache s /\ loads s' = loads s
                  /\ (forall l xs, heap s !! l = Some xs -> heap s' !! l = Some xs)
                  /\ (forall filtered, o = Return filtered ->
                        filtered = all_words
                        \/ heap s !! filtered = None
                           /\ is_Some (heap s' !! filtered))).
  { intros [= -> ->]. repeat split; auto. intros f [= ->]. by left. }
  destruct q as [qs|]; [|by apply Hsame].
  destruct (truthy (strip qs)); [|by apply Hsame].
  clear Hsame. unfold bind, deref, lift in H.
  destruct (heap s !! all_words) as [ws|]; [|by injection H as <- <-].
  destruct (comprehension _ ws) as [e|found]; [by injection H as <- <-|].
  rewrite alloc_run in H. injection H as <- <-. simpl.
  repeat split.
  - intros l xs. apply lookup_alloc_old.
  - intros f [= <-]. right. split; [apply fresh_lookup|].
    rewrite lookup_insert_eq. by eexists.
Qed.

Lemma get_words_unfold (src : source) (q : option str) (page limit : option Z)
    (s : state) :
  get_words lower src q page limit s
  = match load_words src s with
    | (Raise e, s1) => (Raise e, s1)
    | (Return all_words, s1) =>
        match filter_words lower q all_words s1 with
        | (Raise e, s2) => (Raise e, s2)
        | (Return filtered, s2) =>
            if any_supplied q page limit then
              match heap s2 !! filtered with
              | None => (Raise Dangling, s2)
              | Some fs =>
                  (Return (Envelope (meta_of fs q page limit)
                             (fresh (dom (heap s2)))),
                   State (<[fresh (dom (heap s2)) := page_of fs page limit]>
                            (heap s2))
                     (cache s2) (loads s2))
              end
            else (Return (Bare filtered), s2)
        end
    end.
Proof.
  unfold get_words, bind.
  destruct (load_words src s) as [[e|all_words] s1]; [done|].
  destruct (filter_words lower q all_words s1) as [[e|filtered] s2]; [done|].
  destruct (any_supplied q page limit); simpl; [|done].
  unfold deref. by destruct (heap s2 !! filtered).
Qed.

(** The handler on a state in which the loader returns the dataset [ws]. *)
Lemma get_words_run (src : source) (q : option str) (page limit : option Z)
    (s s1 : state) (all_words : loc) (ws : list dict) :
  load_words src s = (Return all_words, s1) ->
  heap s1 !! all_words = Some ws -> Forall record ws ->
  exists filtered s2,
    filter_words lower q all_words s1 = (Return filtered, s2)
    /\ heap s2 !! filtered = Some (filtered_of lower q ws)
    /\ get_words lower src q page limit s
       = if any_supplied q page limit then
           (Return (Envelope (meta_of (filtered_of lower q ws) q page limit)
                      (fresh (dom (heap s2)))),
            State (<[fresh (dom (heap s2))
                     := page_of (filtered_of lower q ws) page limit]> (heap s2))
              (cache s2) (loads s2))
         else (Return (Bare filtered), s2).
Proof.
  intros Hload Hws Hrec.
  pose proof (filter_words_run q all_words ws s1 Hws Hrec) as Hf.
  rewrite get_words_unfold, Hload.
  assert (Hcase : exists filtered s2,
             filter_words lower q all_words s1 = (Return filtered, s2)
             /\ heap s2 !! filtered = Some (filtered_of lower q ws)).
  { destruct q as [qs|]; [destruct (truthy (strip qs)) eqn:Hq|];
      rewrite Hf; eexists _, _; (split; [reflexivity|]).
    - apply lookup_insert_eq.
    - unfold filtered_of. by rewrite Hq.
    - done. }
  destruct Hcase as (filtered & s2 & Hf' & Hfs).
  exists filtered, s2. rewrite Hf'. split; [done|]. split; [done|].
  by rewrite Hfs.
Qed.

End HandlerFacts.

(** ** What a call leaves in the state *)

Lemma load_words_frame (src : source) (s s1 : state) (o : outcome loc) :
  load_words src s = (o, s1) ->
  (forall l xs, heap s !! l = Some xs -> heap s1 !! l = Some xs)
  /\ (forall c, cache s = Some c -> o = Return c /\ s1 = s).
Proof.
  intros H. destruct (cache s) as [c|] eqn:Hc.
  - rewrite (load_words_hit _ _ _ Hc) in H. injection H as <- <-.
    split; [done|]. by intros c' [= <-].
  - split; [|done]. rewrite (load_words_miss _ _ Hc) in H.
    destruct src; injection H as <- <-; simpl; try done.
    intros l xs. apply lookup_alloc_old.
Qed.

Lemma load_words_inv (src : source) (s s1 : state) (o : outcome loc) :
  inv s -> load_words src s = (o, s1) -> inv s1.
Proof.
  intros Hinv H. destruct o as [e|l].
  - apply load_words_raise in H as [Hc ->]. intros l Hl. discriminate.
  - by destruct (load_words_return _ _ _ _ Hinv H) as (_ & _ & ? & _).
Qed.

Section Requests.

Variable lower : str -> str.

(** A request changes no object that was there, and leaves a populated
    cache and the count of loads as they were. *)
Lemma get_words_frame (src : source) (q : option str) (page limit : option Z)
    (s s' : state) (o : outcome response) :
  get_words lower src q page limit s = (o, s') ->
  (forall l xs, heap s !! l = Some xs -> heap s' !! l = Some xs)
  /\ (forall c, cache s = Some c -> cache s' = Some c /\ loads s' = loads s).
Proof.
  rewrite get_words_unfold. intros H.
  destruct (load_words src s) as [o1 s1] eqn:Hload.
  destruct (load_words_frame _ _ _ _ Hload) as [Hheap1 Hhit].
  assert (Hc1 : forall c, cache s = Some c ->
                          cache s1 = Some c /\ loads s1 = loads s).
  { intros c Hc. destruct (Hhit c Hc) as [_ ->]. done. }
  destruct o1 as [e|all_words]; [by injection H as <- <-|].
  destruct (filter_words lower q all_words s1) as [o2 s2] eqn:Hfilter.
  destruct (filter_words_frame _ _ _ _ _ _ Hfilter)
    as (Hcache2 & Hloads2 & Hheap2 & _).
  assert (Hc2 : forall c, cache s = Some c ->
                          cache s2 = Some c /\ loads s2 = loads s).
  { intros c Hc. destruct (Hc1 c Hc) as [<- <-]. done. }
  destruct o2 as [e|filtered]; [injection H as <- <-; auto|].
  destruct (any_supplied q page limit); [|injection H as <- <-; auto].
  destruct (heap s2 !! filtered) as [fs|]; injection H as <- <-; simpl; auto.
  split; [|done]. intros l xs Hl. apply lookup_alloc_old. auto.
Qed.

Lemma get_words_inv (src : source) (q : option str) (page limit : option Z)
    (s s' : state) (o : outcome response) :
  inv s -> get_words lower src q page limit s = (o, s') -> inv s'.
Proof.
  intros Hinv. rewrite get_words_unfold. intros H.
  destruct (load_words src s) as [o1 s1] eqn:Hload.
  pose proof (load_words_inv _ _ _ _ Hinv Hload) as Hinv1.
  destruct o1 as [e|all_words]; [by injection H as <- <-|].
  destruct (filter_words lower q all_words s1) as [o2 s2] eqn:Hfilter.
  destruct (filter_words_frame _ _ _ _ _ _ Hfilter)
    as (Hcache2 & _ & Hheap2 & _).
  assert (Hinv2 : inv s2).
  { intros l Hl. rewrite Hcache2 in Hl.
    destruct (Hinv1 l Hl) as (ws & Hws & Hrec). eauto. }
  destruct o2 as [e|filtered]; [by injection H as <- <-|].
  destruct (any_supplied q page limit); [|by injection H as <- <-].
  destruct (heap s2 !! filtered) as [fs|]; injection H as <- <-; [|done].
  intros l Hl. simpl in *. destruct (Hinv2 l Hl) as (ws & Hws & Hrec).
  exists ws. split; [by apply lookup_alloc_old | done].
Qed.

(** Every state the process reaches by serving requests has the
    invariant. *)
Lemma serve_inv (reqs : list (source * request)) (s : state) :
  inv s -> inv (serve lower reqs s).
Proof.
  revert s. induction reqs as [|[src r] reqs IH]; intros s Hinv; simpl;
    [done|].
  apply IH.
  destruct (get_words lower src (req_q r) (req_page r) (req_limit r) s)
    as [o s'] eqn:H.
  simpl. eapply get_words_inv; eauto.
Qed.

(** What an envelope holds, whatever the state the request found. *)
Lemma get_words_envelope (src : source) (q : option str)
    (page limit : option Z) (s s' : state) (m : meta) (items : loc) :
  get_words lower src q page limit s = (Return (Envelope m items), s') ->
  exists fs, m = meta_of fs q page limit
             /\ heap s' !! items = Some (page_of fs page limit)
             /\ heap s !! items = None.
Proof.
  rewrite get_words_unfold. intros H.
  destruct (load_words src s) as [[e|all_words] s1] eqn:Hload;
    [discriminate|].
  destruct (load_words_frame _ _ _ _ Hload) as [Hheap1 _].
  destruct (filter_words lower q all_words s1) as [[e|filtered] s2]
    eqn:Hfilter; [discriminate|].
  destruct (filter_words_frame _ _ _ _ _ _ Hfilter) as (_ & _ & Hheap2 & _).
  destruct (any_supplied q page limit); [|discriminate].
  destruct (heap s2 !! filtered) as [fs|]; [|discriminate].
  injection H as <- <- <-. exists fs. split; [done|]. simpl.
  split; [apply lookup_insert_eq|].
  destruct (heap s !! fresh (dom (heap s2))) as [xs|] eqn:E; [|done].
  apply Hheap1, Hheap2 in E. rewrite fresh_lookup in E. discriminate.
Qed.

Corollary served_inv (reqs : list (source * request)) :
  inv (serve lower reqs init).
Proof. apply serve_inv, inv_init. Qed.

Lemma any_supplied_true (q : option str) (page limit : option Z) :
  any_supplied q page limit = true
  <-> is_Some q \/ is_Some page \/ is_Some limit.
Proof.
  unfold any_supplied. rewrite !orb_true_iff, !bool_decide_eq_true. tauto.
Qed.

Lemma any_supplied_none : any_supplied None None None = false.
Proof. reflexivity. Qed.

End Requests.

(** * The listing handler: mode, filter, page, meta *)

(** C1. Mode selection goes by presence. When the loader returns the
    dataset: a request with none of [q], [page], [limit] gets the cached list
    itself as a bare array, so the dataset in its length and order; a request
    with any of the three, the empty [q] included, gets the envelope with
    [meta] and [items]. *)
Theorem mode_selection (lower : str -> str) (src : source) (s s1 : state)
    (all_words : loc) (q : option str) (page limit : option Z) :
  inv s -> load_words src s = (Return all_words, s1) ->
  exists ws,
    heap s1 !! all_words = Some ws
    /\ (q = None -> page = None -> limit = None ->
        get_words lower src q page limit s = (Return (Bare all_words), s1)
        /\ render s1 (Bare all_words) = Some (JsonArray ws))
    /\ (is_Some q \/ is_Some page \/ is_Some limit ->
        exists m items s2 its,
          get_words lower src q page limit s
          = (Return (Envelope m items), s2)
          /\ render s2 (Envelope m items) = Some (JsonObject m its)).
Proof.
  intros Hinv Hload.
  destruct (load_words_return _ _ _ _ Hinv Hload)
    as (_ & (ws & Hws & Hrec) & _ & _).
  exists ws. split; [done|].
  destruct (get_words_run lower src q page limit s s1 all_words ws
              Hload Hws Hrec) as (filtered & s2 & Hf & Hfs & Hrun).
  split.
  - intros -> -> ->. rewrite any_supplied_none in Hrun.
    simpl in Hf. injection Hf as <- <-.
    split; [done|]. simpl. by rewrite Hws.
  - intros Hany. apply any_supplied_true in Hany. rewrite Hany in Hrun.
    eexists _, _, _, _. split; [exact Hrun|].
    simpl. by rewrite lookup_insert_eq.
Qed.

(** C2. Filtering. On a dataset of records, for a supplied [q] that is not
    blank after trimming, [filtered] is a list of exactly the records in
    which the needle, [q] trimmed and lowercased, is a substring of one of
    [word], [definition], [example], [word_uz], [part_of_speech] lowercased,
    in the order of the dataset; the value of no other field changes whether
    a record matches; for [q] absent or blank after trimming, [filtered]
    is the whole dataset. *)
Theorem filtering_correct (lower : str -> str) (s : state) (all_words : loc)
    (ws : list dict) (q : option str) :
  heap s !! all_words = Some ws -> Forall record ws ->
  exists filtered s' fs,
    filter_words lower q all_words s = (Return filtered, s')
    /\ heap s' !! filtered = Some fs
    /\ (forall qs, q = Some qs -> strip qs <> [] ->
                   Selects (hit lower (lower (strip qs))) ws fs)
    /\ (q = None \/ (exists qs, q = Some qs /\ strip qs = []) -> fs = ws)
    /\ (forall needle d k v,
           k ∈ ["pronunciation"; "audio"; "image"; "file"]%string ->
           matches lower needle (<[k := v]> d) = matches lower needle d).
Proof.
  intros Hws Hrec.
  pose proof (filter_words_run lower q all_words ws s Hws Hrec) as Hf.
  assert (Hcase : exists filtered s',
             filter_words lower q all_words s = (Return filtered, s')
             /\ heap s' !! filtered = Some (filtered_of lower q ws)).
  { destruct q as [qs|]; [destruct (truthy (strip qs)) eqn:Hq|];
      rewrite Hf; eexists _, _; (split; [reflexivity|]).
    - apply lookup_insert_eq.
    - unfold filtered_of. by rewrite Hq.
    - done. }
  destruct Hcase as (filtered & s' & Hf' & Hfs).
  exists filtered, s', (filtered_of lower q ws).
  split; [done|]. split; [done|]. split; [|split].
  - intros qs -> Hq. apply truthy_cons in Hq. unfold filtered_of.
    rewrite Hq. apply Selects_filter. intros d. apply hitb_spec.
  - intros [-> | (qs & -> & Hq)]; [done|].
    apply truthy_nil in Hq. unfold filtered_of. by rewrite Hq.
  - intros needle d k v Hk.
    assert (Hget : forall k', k' ∈ searched_fields ->
                              dict_get (<[k := v]> d) k' = dict_get d k').
    { intros k' Hk'. unfold dict_get. rewrite lookup_insert_ne; [done|].
      intros <-. unfold searched_fields in Hk'.
      cases_in Hk;
        repeat (apply elem_of_cons in Hk' as [E | Hk']; [discriminate E|]);
        by apply elem_of_nil in Hk'. }
    unfold matches, field_has, lowered.
    rewrite !Hget by in_literal. done.
Qed.

(** C3. The page. In paginated mode, with the filtered list [fs], the
    effective page [p >= 1] and the effective limit [l >= 1], [items] is the
    part of [fs] from offset [(p-1)*l] up to but without [(p-1)*l + l]: at
    most [l] elements, the [i]-th being the one at [(p-1)*l + i]; when the
    offset is at or beyond the total, the request returns, with no
    elements. *)
Theorem pagination_slice (lower : str -> str) (src : source) (s s1 : state)
    (all_words : loc) (q : option str) (page limit : option Z) :
  inv s -> load_words src s = (Return all_words, s1) ->
  is_Some q \/ is_Some page \/ is_Some limit ->
  1 <= int_or page 1 -> 1 <= int_or limit 50 ->
  exists filtered s2 fs m items s3 its,
    filter_words lower q all_words s1 = (Return filtered, s2)
    /\ heap s2 !! filtered = Some fs
    /\ get_words lower src q page limit s = (Return (Envelope m items), s3)
    /\ heap s3 !! items = Some its
    /\ meta_page m = int_or page 1 /\ meta_limit m = int_or limit 50
    /\ meta_total m = Z.of_nat (length fs)
    /\ let offset := Z.to_nat ((meta_page m - 1) * meta_limit m) in
       let l := Z.to_nat (meta_limit m) in
       its = take l (drop offset fs)
       /\ (forall i : nat,
              its !! i
              = if decide (i < l)%nat then fs !! (offset + i)%nat else None)
       /\ (meta_total m <= (meta_page m - 1) * meta_limit m -> its = []).
Proof.
  intros Hinv Hload Hany Hp Hl.
  destruct (load_words_return _ _ _ _ Hinv Hload)
    as (_ & (ws & Hws & Hrec) & _ & _).
  destruct (get_words_run lower src q page limit s s1 all_words ws
              Hload Hws Hrec) as (filtered & s2 & Hf & Hfs & Hrun).
  apply any_supplied_true in Hany. rewrite Hany in Hrun.
  eexists filtered, s2, _, _, _, _, _.
  split; [exact Hf|]. split; [exact Hfs|]. split; [exact Hrun|].
  split; [simpl; apply lookup_insert_eq|].
  split; [done|]. split; [done|]. split; [done|]. simpl.
  set (fs := filtered_of lower q ws).
  assert (E : page_of fs page limit
              = take (Z.to_nat (int_or limit 50))
                  (drop (Z.to_nat ((int_or page 1 - 1) * int_or limit 50)) fs)).
  { unfold page_of. apply py_slice_forward; nia. }
  rewrite E. split; [done|]. split.
  - intros i. apply lookup_take_drop.
  - intros Hout. rewrite drop_ge; [by rewrite take_nil | lia].
Qed.

(** C4. The number of pages. In every paginated response [meta.pages] is
    the expression of the source on [meta.total] and the effective limit:
    for a limit above 0 it is [floor((total + limit - 1) / limit)], which is
    the ceiling of [total / limit], the least number of pages of [limit]
    elements that hold [total] elements; the expression is 1 at limit 0. *)
Theorem pages_formula (lower : str -> str) (src : source) (q : option str)
    (page limit : option Z) (s s' : state) (m : meta) (items : loc) :
  get_words lower src q page limit s = (Return (Envelope m items), s') ->
  meta_limit m = int_or limit 50
  /\ meta_pages m = page_count (meta_total m) (meta_limit m)
  /\ (0 < meta_limit m ->
      meta_pages m = (meta_total m + meta_limit m - 1) / meta_limit m
      /\ (meta_pages m - 1) * meta_limit m < meta_total m
         <= meta_pages m * meta_limit m)
  /\ (forall total, page_count total 0 = 1).
Proof.
  intros H. apply get_words_envelope in H as (fs & -> & _). simpl.
  split; [done|]. split; [done|]. split; [|done].
  intros Hl. unfold page_count.
  destruct (int_or limit 50 =? 0) eqn:E; [lia|].
  split; [done|].
  set (t := Z.of_nat (length fs)). set (l := int_or limit 50) in *.
  pose proof (Z.div_mod (t + l - 1) l ltac:(lia)) as Hdm.
  pose proof (Z.mod_pos_bound (t + l - 1) l Hl) as Hmod.
  nia.
Qed.

(** C5. Defaults and echo. In every paginated response of the route,
    [meta.page] is the supplied page, or 1 when none is supplied;
    [meta.limit] the supplied limit, or 50; [meta.q] the supplied [q] as it
    is, or the empty string. *)
Theorem defaults_and_echo (lower : str -> str) (src : source)
    (q : option str) (page limit : option Z) (s s' : state) (m : meta)
    (items : loc) :
  route_get_words lower src q page limit s
  = (Return (Envelope m items), s') ->
  meta_page m = default 1 page
  /\ meta_limit m = default 50 limit
  /\ meta_q m = default [] q.
Proof.
  unfold route_get_words. intros H.
  destruct (valid_page page && valid_limit limit) eqn:Hv; [|discriminate].
  apply andb_true_iff in Hv as [Hp Hl].
  apply get_words_envelope in H as (fs & -> & _). simpl.
  split; [|split].
  - destruct page as [p|]; simpl in *; [|done].
    destruct (p =? 0) eqn:E; [lia | done].
  - destruct limit as [l|]; simpl in *; [|done].
    destruct (l =? 0) eqn:E; [lia | done].
  - destruct q as [[|c t]|]; done.
Qed.

(** * The loader *)

(** C6, as the code has it. Normalization. From a file that the reader
    reads to its end, a call of the loader that the cache does not serve
    returns one record for each row, in the order of the rows; the ["id"] of
    the record of the row at index [i] is [1 + i], so the ids are consecutive
    from 1 and no two records share one; each of ["word"],
    ["pronunciation"], ["definition"], ["example"], ["audio"], ["image"],
    ["file"], ["part_of_speech"], ["word_uz"] is there and is a string, the
    source field without the white space at its two ends; a column that the
    header or the row does not have gives the empty string. *)
Theorem loader_normalization (rows : list row) (s : state) :
  cache s = None ->
  exists l s1 items,
    load_words (Readable rows) s = (Return l, s1)
    /\ heap s1 !! l = Some items
    /\ length items = length rows
    /\ (forall (i : nat) (r : row),
           rows !! i = Some r ->
           exists item,
             items !! i = Some item
             /\ item !! "id"%string = Some (VInt (1 + Z.of_nat i))
             /\ forall k,
                  k ∈ ["word"; "pronunciation"; "definition"; "example";
                       "audio"; "image"; "file"; "part_of_speech";
                       "word_uz"]%string ->
                  exists t, item !! k = Some (VStr t)
                            /\ Stripped (source_field r k) t
                            /\ (r !! k = None \/ r !! k = Some None -> t = []))
    /\ (forall (i j : nat) (a b : dict),
           items !! i = Some a -> items !! j = Some b ->
           a !! "id"%string = b !! "id"%string -> i = j).
Proof.
  intros Hc. rewrite (load_words_miss _ _ Hc).
  eexists _, _, (items_of_rows rows). split; [reflexivity|]. simpl.
  split; [apply lookup_insert_eq|].
  split; [apply items_of_rows_length|]. split.
  - intros i r Hr. exists (make_item (1 + Z.of_nat i) r).
    split; [by apply items_of_rows_lookup|].
    split; [apply make_item_id|].
    intros k Hk. exists (cell r k).
    split; [apply make_item_text; exact Hk|].
    rewrite cell_source_field. split; [apply strip_stripped|].
    unfold source_field. by intros [-> | ->].
  - intros i j a b Ha Hb Hid.
    assert (Hrow : forall (n : nat) (d : dict),
               items_of_rows rows !! n = Some d ->
               d !! "id"%string = Some (VInt (1 + Z.of_nat n))).
    { intros n d Hd.
      assert (Hn : (n < length rows)%nat).
      { rewrite <- items_of_rows_length. by apply lookup_lt_Some in Hd. }
      destruct (lookup_lt_is_Some_2 rows n Hn) as [r Hr].
      rewrite (items_of_rows_lookup rows n r Hr) in Hd.
      injection Hd as <-. apply make_item_id. }
    rewrite (Hrow i a Ha), (Hrow j b Hb) in Hid.
    injection Hid as Hid. lia.
Qed.

(** C7, as the code has it. On a call that is not served from the cache,
    the loader raises [FileNotFoundError] exactly when nothing exists at the
    path. When the reader reads the file to its end, the loader raises
    nothing, whatever the rows hold. When opening, decoding or parsing a
    path that exists raises, the loader raises that error as it is; it
    raises nothing of its own. *)
Theorem loader_failure (src : source) (s : state) :
  cache s = None ->
  (fst (load_words src s) = Raise FileNotFoundError <-> path_exists src = false)
  /\ (forall rows, src = Readable rows ->
                   exists l, fst (load_words src s) = Return l)
  /\ (forall e, src = Unreadable e ->
                fst (load_words src s) = Raise (ReadError e))
  /\ (forall x, fst (load_words src s) = Raise x ->
                x = FileNotFoundError /\ src = Missing
                \/ exists e, x = ReadError e /\ src = Unreadable e).
Proof.
  intros Hc. rewrite (load_words_miss _ _ Hc).
  split; [|split; [|split]].
  - destruct src; simpl; split; congruence.
  - intros rows ->. by eexists.
  - by intros e ->.
  - intros x. destruct src as [|e|rows]; simpl; intros [= <-].
    + by left.
    + right. by exists e.
Qed.

(** Requests in sequence change no object that was there, and leave a
    populated cache and the count of loads as they were. *)
Lemma serve_frame (lower : str -> str) (reqs : list (source * request))
    (s : state) (c : loc) :
  cache s = Some c ->
  cache (serve lower reqs s) = Some c
  /\ loads (serve lower reqs s) = loads s
  /\ (forall l xs, heap s !! l = Some xs ->
                   heap (serve lower reqs s) !! l = Some xs).
Proof.
  revert s. induction reqs as [|[src r] reqs IH]; intros s Hc; simpl;
    [done|].
  destruct (get_words lower src (req_q r) (req_page r) (req_limit r) s)
    as [o s'] eqn:H.
  destruct (get_words_frame _ _ _ _ _ _ _ _ H) as [Hheap Hcache].
  destruct (Hcache c Hc) as [Hc' Hl']. simpl.
  destruct (IH s' Hc') as (IH1 & IH2 & IH3).
  split; [done|]. split; [congruence|]. auto.
Qed.

(** Calls in sequence. When a call of [load_words] returns the dataset, it
    has executed the body at most once, and after it no request executes the
    body again, whatever number of requests follows and whatever the path
    holds by then: every later call returns the same list object, with the
    same elements, and changes nothing. When a call raises, nothing is
    cached, and the next call executes the body again. *)
Lemma memoized_after_success (lower : str -> str) (src : source)
    (s s1 : state) (o : outcome loc) :
  load_words src s = (o, s1) ->
  match o with
  | Return l =>
      (loads s1 <= S (loads s))%nat
      /\ forall reqs : list (source * request),
           loads (serve lower reqs s1) = loads s1
           /\ (forall ws, heap s1 !! l = Some ws ->
                          heap (serve lower reqs s1) !! l = Some ws)
           /\ forall src',
                load_words src' (serve lower reqs s1)
                = (Return l, serve lower reqs s1)
  | Raise e =>
      cache s1 = None
      /\ forall src', loads (snd (load_words src' s1)) = S (loads s1)
  end.
Proof.
  intros H. destruct o as [e|l].
  - apply load_words_raise in H as [Hc ->]. split; [done|].
    intros src'. rewrite load_words_miss by done. by destruct src'.
  - assert (Hcache : cache s1 = Some l /\ (loads s1 <= S (loads s))%nat).
    { destruct (cache s) as [c|] eqn:Hc.
      - rewrite (load_words_hit _ _ _ Hc) in H. injection H as <- <-.
        split; [done | lia].
      - rewrite (load_words_miss _ _ Hc) in H.
        destruct src; try discriminate. by injection H as <- <-. }
    destruct Hcache as [Hc Hle]. split; [done|].
    intros reqs. destruct (serve_frame lower reqs s1 l Hc) as (Hc' & Hl' & Hh').
    split; [done|]. split; [auto|].
    intros src'. by apply load_words_hit.
Qed.

(** * The dataset under requests *)

(** C9. The handler does not change the cached dataset. With the dataset
    cached, a request leaves the cache slot, the elements of the cached list
    and every list object that was there as they were; the bare response is
    the cached list itself, the [items] of an envelope a new list, and
    [filtered] the cached list or a new list. So after any number of
    requests [load_words] returns the same list with the same elements. *)
Theorem handler_preserves_dataset (lower : str -> str) (s : state)
    (all_words : loc) (ws : list dict) :
  cache s = Some all_words -> heap s !! all_words = Some ws ->
  (forall src q page limit o s',
      get_words lower src q page limit s = (o, s') ->
      cache s' = Some all_words
      /\ heap s' !! all_words = Some ws
      /\ loads s' = loads s
      /\ (forall l xs, heap s !! l = Some xs -> heap s' !! l = Some xs)
      /\ match o with
         | Return (Bare l) => l = all_words
         | Return (Envelope _ items) => heap s !! items = None
         | Raise _ => True
         end)
  /\ (forall q filtered s',
         filter_words lower q all_words s = (Return filtered, s') ->
         filtered = all_words \/ heap s !! filtered = None)
  /\ (forall reqs : list (source * request),
         cache (serve lower reqs s) = Some all_words
         /\ heap (serve lower reqs s) !! all_words = Some ws
         /\ forall src,
              load_words src (serve lower reqs s)
              = (Return all_words, serve lower reqs s)).
Proof.
  intros Hc Hws. split; [|split].
  - intros src q page limit o s' H.
    destruct (get_words_frame _ _ _ _ _ _ _ _ H) as [Hheap Hcache].
    destruct (Hcache _ Hc) as [Hc' Hl'].
    split; [done|]. split; [auto|]. split; [done|]. split; [done|].
    destruct o as [e|[l|m items]]; [done| |].
    + rewrite get_words_unfold, (load_words_hit _ _ _ Hc) in H.
      destruct (filter_words lower q all_words s) as [[e|filtered] s2]
        eqn:Hf; [discriminate|].
      destruct (any_supplied q page limit) eqn:Hany.
      * destruct (heap s2 !! filtered); discriminate.
      * injection H as <- <-.
        destruct q as [qs|]; [discriminate Hany|].
        simpl in Hf. by injection Hf as <- <-.
    + by apply get_words_envelope in H as (fs & _ & _ & Hnew).
  - intros q filtered s' Hf.
    destruct (filter_words_frame _ _ _ _ _ _ Hf) as (_ & _ & _ & Hnew).
    destruct (Hnew filtered eq_refl) as [-> | [Hn _]]; auto.
  - intros reqs.
    destruct (serve_frame lower reqs s all_words Hc) as (Hc' & _ & Hh').
    split; [done|]. split; [auto|].
    intros src. by apply load_words_hit.
Qed.

(** C10. The source without data rows. When the reader yields no row, the
    first call of the loader returns the empty list and raises nothing; a
    request with no parameter then gets the empty array, and a request with a
    parameter the envelope with total 0 and no items. *)
Theorem empty_dataset (lower : str -> str) (s : state) (q : option str)
    (page limit : option Z) :
  cache s = None ->
  (exists l s1,
      load_words (Readable []) s = (Return l, s1) /\ heap s1 !! l = Some [])
  /\ (exists r s1,
         get_words lower (Readable []) None None None s = (Return r, s1)
         /\ render s1 r = Some (JsonArray []))
  /\ (is_Some q \/ is_Some page \/ is_Some limit ->
      exists m items s2,
        get_words lower (Readable []) q page limit s
        = (Return (Envelope m items), s2)
        /\ meta_total m = 0
        /\ render s2 (Envelope m items) = Some (JsonObject m [])).
Proof.
  intros Hc.
  pose proof (load_words_miss (Readable []) s Hc) as Hload.
  change (items_of_rows []) with (@nil dict) in Hload. cbv beta iota in Hload.
  set (l := fresh (dom (heap s))) in *.
  set (s1 := State (<[l := []]> (heap s)) (Some l) (S (loads s))) in *.
  assert (Hl : heap s1 !! l = Some []) by apply lookup_insert_eq.
  assert (Hfs : forall q', filtered_of lower q' [] = []).
  { intros [qs|]; unfold filtered_of; [|done]. by destruct (truthy _). }
  split; [by exists l, s1|]. split.
  - destruct (get_words_run lower (Readable []) None None None s s1 l []
                Hload Hl (List.Forall_nil _)) as (filtered & s2 & Hf & Hfl & Hrun).
    rewrite any_supplied_none in Hrun.
    eexists _, _. split; [exact Hrun|]. simpl. by rewrite Hfl.
  - intros Hany. apply any_supplied_true in Hany.
    destruct (get_words_run lower (Readable []) q page limit s s1 l []
                Hload Hl (List.Forall_nil _)) as (filtered & s2 & Hf & Hfl & Hrun).
    rewrite Hany, Hfs in Hrun.
    eexists _, _, _. split; [exact Hrun|]. split; [done|].
    simpl. rewrite lookup_insert_eq. simpl.
    unfold page_of, py_slice. by rewrite drop_nil, take_nil.
Qed.

(** * What the code does not do *)

(** C7, as it is stated, fails: a file that exists and whose bytes are not
    UTF-8 text makes the loader raise [UnicodeDecodeError]. *)
Lemma existing_source_can_raise :
  path_exists (Unreadable UnicodeDecodeError) = true
  /\ fst (load_words (Unreadable UnicodeDecodeError) init)
     = Raise (ReadError UnicodeDecodeError).
Proof. split; reflexivity. Qed.

(** C6, as it is stated, fails: a file that exists and that the reader
    refuses gives no record at all; and with a dataset in the cache, a file of
    two rows is answered with the three records loaded before. *)
Lemma existing_source_without_records :
  path_exists (Unreadable CsvError) = true
  /\ fst (load_words (Unreadable CsvError) init) = Raise (ReadError CsvError)
  /\ path_exists (Readable Examples.ragged_rows) = true
  /\ length Examples.ragged_rows = 2%nat
  /\ fst (load_words (Readable Examples.ragged_rows) Examples.loaded)
     = Return 1%positive
  /\ length <$> heap Examples.loaded !! 1%positive = Some 3%nat.
Proof. repeat split. Qed.

(** C8, as it is stated, fails: with nothing at the path, each of two calls
    in sequence executes the body of the loader. *)
Lemma failed_load_runs_again :
  fst (load_words Missing init) = Raise FileNotFoundError
  /\ loads (snd (load_words Missing init)) = 1%nat
  /\ loads (snd (load_words Missing (snd (load_words Missing init)))) = 2%nat.
Proof. repeat split. Qed.

(** * Calls that overlap *)

(** With one thread, the steps are a call of [load_words]. *)
Lemma one_thread_is_load_words (src : source) (s s' : state)
    (o : outcome loc) :
  load_words src s = (o, s') ->
  rtc (step src) (World s [Calling]) (World s' [Finished o]).
Proof.
  intros H. destruct (cache s) as [c|] eqn:Hc.
  - rewrite (load_words_hit _ _ _ Hc) in H. injection H as <- <-.
    apply rtc_once. by apply (step_hit src (World s [Calling]) 0%nat c).
  - eapply rtc_l; [by apply (step_miss src (World s [Calling]) 0%nat)|].
    apply rtc_once. simpl.
    unfold load_words, lru_cache in H. rewrite Hc in H.
    destruct (load_words_body src s) as [[e|l] sb] eqn:Hb.
    + injection H as <- <-.
      by apply (step_raise src (World s [Running]) 0%nat e sb).
    + injection H as <- <-.
      assert (E : State (heap sb) (Some l) (loads sb) = store l sb).
      { unfold store. rewrite load_words_body_run in Hb.
        destruct src; try discriminate.
        injection Hb as <- <-. simpl. by rewrite Hc. }
      rewrite E.
      by apply (step_return src (World s [Running]) 0%nat l sb).
Qed.

(** Two first calls that overlap both miss, and both execute the body:
    the source is read twice, and the two callers get two lists. *)
Lemma overlapping_calls_load_twice (rows : list row) :
  exists w l1 l2,
    rtc (step (Readable rows)) (World init [Calling; Calling]) w
    /\ loads (shared w) = 2%nat
    /\ threads w = [Finished (Return l1); Finished (Return l2)]
    /\ l1 <> l2
    /\ heap (shared w) !! l1 = Some (items_of_rows rows)
    /\ heap (shared w) !! l2 = Some (items_of_rows rows).
Proof.
  set (w0 := World init [Calling; Calling]).
  set (w1 := World init [Running; Calling]).
  set (w2 := World init [Running; Running]).
  destruct (load_words_body (Readable rows) init) as [o3 s3] eqn:H3.
  rewrite load_words_body_run in H3. injection H3 as <- <-.
  set (l1 := fresh (dom (heap init))) in *.
  set (s3 := State (<[l1 := items_of_rows rows]> (heap init)) None 1).
  set (w3 := World (store l1 s3) [Finished (Return l1); Running]).
  set (l2 := fresh (dom (heap (store l1 s3)))).
  set (s4 := State (<[l2 := items_of_rows rows]> (heap (store l1 s3)))
               (cache (store l1 s3)) 2).
  set (w4 := World (store l2 s4) [Finished (Return l1); Finished (Return l2)]).
  assert (Hne : l1 <> l2).
  { intros E. pose proof (fresh_lookup (store l1 s3)) as Hf.
    fold l2 in Hf. rewrite <- E in Hf. simpl in Hf.
    rewrite lookup_insert_eq in Hf. discriminate. }
  exists w4, l1, l2. split; [|repeat split; try done].
  - eapply rtc_l; [by apply (step_miss _ w0 0%nat)|].
    eapply rtc_l; [by apply (step_miss _ w1 1%nat)|].
    eapply rtc_l;
      [apply (step_return _ w2 0%nat l1 s3); [done|];
       by rewrite load_words_body_run|].
    apply rtc_once.
    apply (step_return _ w3 1%nat l2 s4); [done|].
    by rewrite load_words_body_run.
Qed.

(** X13. However the calls interleave, a call that returns, returns a list
    that holds every record of the source: a list is stored and returned when
    it is complete. *)
Lemma threads_get_whole_lists (rows : list row) (s0 : state)
    (ts : list thread) (w : world) :
  cache s0 = None -> Forall (fun t => t = Calling) ts ->
  rtc (step (Readable rows)) (World s0 ts) w ->
  forall i l, threads w !! i = Some (Finished (Return l)) ->
              heap (shared w) !! l = Some (items_of_rows rows).
Proof.
  intros Hc Hts Hsteps.
  assert (J : (forall l, cache (shared w) = Some l ->
                         heap (shared w) !! l = Some (items_of_rows rows))
              /\ (forall i l, threads w !! i = Some (Finished (Return l)) ->
                              heap (shared w) !! l
                              = Some (items_of_rows rows))); [|by destruct J].
  revert w Hsteps.
  apply (rtc_ind_r
           (fun w =>
              (forall l, cache (shared w) = Some l ->
                         heap (shared w) !! l = Some (items_of_rows rows))
              /\ (forall i l, threads w !! i = Some (Finished (Return l)) ->
                              heap (shared w) !! l
                              = Some (items_of_rows rows)))
           (World s0 ts)); [|intros w1 w2 Hsteps Hstep [J1 J2]].
  - simpl. split; [intros l Hl; congruence|].
    intros i l Hi. rewrite Forall_lookup in Hts.
    by pose proof (Hts i _ Hi).
  - assert (Hother : forall (i j : nat) (t : thread) (l : loc),
               is_Some (threads w1 !! i) ->
               <[i := t]> (threads w1) !! j = Some (Finished (Return l)) ->
               t = Finished (Return l)
               \/ threads w1 !! j = Some (Finished (Return l))).
    { intros i j t l Hi Hj. destruct (decide (i = j)) as [<- | Hne].
      - rewrite list_lookup_insert_eq in Hj
          by (by apply lookup_lt_is_Some). left. congruence.
      - rewrite list_lookup_insert_ne in Hj by done. by right. }
    destruct Hstep as [w1 i l Hi Hl | w1 i Hi Hl | w1 i l s' Hi Hb
                      | w1 i e s' Hi Hb]; simpl.
    + split; [done|]. intros j l' Hj.
      destruct (Hother i j _ l' ltac:(by eexists) Hj) as [[= <-] | Hj'];
        eauto.
    + split; [done|]. intros j l' Hj.
      destruct (Hother i j _ l' ltac:(by eexists) Hj) as [[=] | Hj']; eauto.
    + rewrite load_words_body_run in Hb. injection Hb as <- <-. simpl.
      split.
      * intros c Hcache. destruct (cache (shared w1)) as [c'|] eqn:Hc'.
        -- injection Hcache as <-. apply lookup_alloc_old. auto.
        -- injection Hcache as <-. apply lookup_insert_eq.
      * intros j l' Hj.
        destruct (Hother i j _ l' ltac:(by eexists) Hj) as [[= <-] | Hj'].
        -- apply lookup_insert_eq.
        -- apply lookup_alloc_old. eauto.
    + rewrite load_words_body_run in Hb. discriminate.
Qed.

(** * The theorems at concrete requests *)

Import Examples.

Lemma mode_selection_witness :
  inv init
  /\ load_words fruit_source init = (Return 1%positive, loaded)
  /\ get_words ascii_lower fruit_source None None None init
     = (Return (Bare 1%positive), loaded).
Proof.
  split; [exact inv_init|]. split; [reflexivity|].
  destruct (mode_selection ascii_lower fruit_source init loaded 1%positive
              None None None inv_init eq_refl) as (ws & _ & Hbare & _).
  by destruct (Hbare eq_refl eq_refl eq_refl).
Defined.

Lemma filtering_correct_witness :
  heap loaded !! 1%positive = Some (items_of_rows three_rows)
  /\ Forall record (items_of_rows three_rows)
  /\ exists filtered s' fs,
       filter_words ascii_lower (Some (lit " Fruit ")) 1%positive loaded
       = (Return filtered, s')
       /\ heap s' !! filtered = Some fs
       /\ Selects (hit ascii_lower (lit "fruit")) (items_of_rows three_rows) fs.
Proof.
  split; [reflexivity|]. split; [apply items_of_rows_records|].
  destruct (filtering_correct ascii_lower loaded 1%positive
              (items_of_rows three_rows) (Some (lit " Fruit ")) eq_refl
              (items_of_rows_records three_rows))
    as (filtered & s' & fs & Hf & Hfs & Hsel & _).
  exists filtered, s', fs. split; [done|]. split; [done|].
  apply (Hsel (lit " Fruit ") eq_refl). discriminate.
Defined.

Lemma pagination_slice_witness :
  inv init
  /\ load_words fruit_source init = (Return 1%positive, loaded)
  /\ 1 <= int_or (Some 2) 1 /\ 1 <= int_or (Some 1) 50
  /\ exists m items s3,
       get_words ascii_lower fruit_source None (Some 2) (Some 1) init
       = (Return (Envelope m items), s3)
       /\ heap s3 !! items
          = Some (take 1 (drop 1 (items_of_rows three_rows))).
Proof.
  split; [exact inv_init|]. split; [reflexivity|].
  split; [simpl; lia|]. split; [simpl; lia|].
  destruct (pagination_slice ascii_lower fruit_source init loaded 1%positive
              None (Some 2) (Some 1) inv_init eq_refl)
    as (filtered & s2 & fs & m & items & s3 & its
        & Hf & Hfs & Hrun & Hits & Hp & Hl & _ & Hslice & _).
  - right. left. by eexists.
  - simpl. lia.
  - simpl. lia.
  - exists m, items, s3. split; [done|].
    injection Hf as <- <-. rewrite Hits, Hslice, Hp, Hl. f_equal.
    change (heap loaded !! 1%positive) with (Some (items_of_rows three_rows))
      in Hfs.
    by injection Hfs as <-.
Defined.

Lemma pages_formula_witness :
  get_words ascii_lower fruit_source (Some (lit "fruit")) (Some 1) (Some 1)
    init
  = (Return (Envelope (Meta 2 1 1 2 (lit "fruit")) 3%positive),
     snd (get_words ascii_lower fruit_source (Some (lit "fruit")) (Some 1)
            (Some 1) init))
  /\ meta_pages (Meta 2 1 1 2 (lit "fruit")) = (2 + 1 - 1) / 1
  /\ (2 - 1) * 1 < 2 <= 2 * 1.
Proof.
  split; [reflexivity|].
  destruct (pages_formula ascii_lower fruit_source (Some (lit "fruit"))
              (Some 1) (Some 1) init _ (Meta 2 1 1 2 (lit "fruit"))
              3%positive eq_refl) as (_ & _ & Hceil & _).
  apply Hceil. simpl. lia.
Defined.

Lemma defaults_and_echo_witness :
  route_get_words ascii_lower fruit_source (Some []) None None init
  = (Return (Envelope (Meta 3 1 50 1 []) 2%positive),
     snd (route_get_words ascii_lower fruit_source (Some []) None None init))
  /\ meta_page (Meta 3 1 50 1 []) = 1
  /\ meta_limit (Meta 3 1 50 1 []) = 50
  /\ meta_q (Meta 3 1 50 1 []) = [].
Proof.
  split; [reflexivity|].
  exact (defaults_and_echo ascii_lower fruit_source (Some []) None None
           init _ (Meta 3 1 50 1 []) 2%positive eq_refl).
Defined.

Lemma loader_normalization_witness :
  cache init = None
  /\ exists l s1 items,
       load_words (Readable ragged_rows) init = (Return l, s1)
       /\ heap s1 !! l = Some items
       /\ length items = 2%nat
       /\ (exists item t,
              items !! 0%nat = Some item
              /\ item !! "id"%string = Some (VInt 1)
              /\ item !! "word"%string = Some (VStr t)
              /\ Stripped (lit "  Pear ") t)
       /\ (exists item,
              items !! 1%nat = Some item
              /\ item !! "id"%string = Some (VInt 2)
              /\ item !! "audio"%string = Some (VStr [])).
Proof.
  split; [reflexivity|].
  destruct (loader_normalization ragged_rows init eq_refl)
    as (l & s1 & items & Hload & Hitems & Hlen & Hrows & _).
  exists l, s1, items. split; [exact Hload|]. split; [exact Hitems|].
  split; [exact Hlen|]. split.
  - destruct (Hrows 0%nat _ eq_refl) as (item & Hitem & Hid & Hfields).
    destruct (Hfields "word"%string) as (t & Ht & Hstripped & _).
    { apply list_elem_of_here. }
    exists item, t. split; [exact Hitem|]. split; [exact Hid|].
    split; [exact Ht | exact Hstripped].
  - destruct (Hrows 1%nat _ eq_refl) as (item & Hitem & Hid & Hfields).
    destruct (Hfields "audio"%string) as (t & Ht & _ & Hnone).
    { do 4 apply list_elem_of_further. apply list_elem_of_here. }
    exists item. split; [exact Hitem|]. split; [exact Hid|].
    rewrite Ht, Hnone; [reflexivity|]. right. reflexivity.
Defined.

Lemma loader_failure_witness :
  cache init = None
  /\ (fst (load_words Missing init) = Raise FileNotFoundError
      <-> path_exists Missing = false).
Proof.
  split; [reflexivity|].
  by destruct (loader_failure Missing init eq_refl) as [H _].
Defined.

Lemma handler_preserves_dataset_witness :
  cache loaded = Some 1%positive
  /\ heap loaded !! 1%positive = Some (items_of_rows three_rows)
  /\ forall reqs : list (source * request),
       heap (serve ascii_lower reqs loaded) !! 1%positive
       = Some (items_of_rows three_rows).
Proof.
  split; [reflexivity|]. split; [reflexivity|].
  destruct (handler_preserves_dataset ascii_lower loaded 1%positive
              (items_of_rows three_rows) eq_refl eq_refl) as (_ & _ & H).
  intros reqs. by destruct (H reqs) as (_ & H' & _).
Defined.

Lemma empty_dataset_witness :
  cache init = None
  /\ exists l s1,
       load_words (Readable []) init = (Return l, s1)
       /\ heap s1 !! l = Some [].
Proof.
  split; [reflexivity|].
  by destruct (empty_dataset ascii_lower init None None None eq_refl)
    as [H _].
Defined.

(** * The examples of the specification *)

(** Three rows, [q=fruit&page=1&limit=1]. *)
Example fruit_first_page :
  response_of
    (route_get_words ascii_lower fruit_source (Some (lit "fruit")) (Some 1)
       (Some 1)) init
  = Some (JsonObject (Meta 2 1 1 2 (lit "fruit"))
            [make_item 1 (row_of [("word", "Apple"); ("definition", "a fruit")]
                            %string)]).
Proof. reflexivity. Qed.

(** Ten records, limit 3: four pages, one item on page 4, none on page 5. *)
Example ten_by_three :
  words_of (response_of (get_words ascii_lower (Readable ten_rows) None
                           (Some 4) (Some 3)) init)
  = [lit "w"]
  /\ response_of (get_words ascii_lower (Readable ten_rows) None (Some 5)
                    (Some 3)) init
     = Some (JsonObject (Meta 10 5 3 4 []) []).
Proof. split; reflexivity. Qed.

(** A search by what only [pronunciation] holds finds nothing. *)
Example pronunciation_is_not_searched :
  response_of
    (get_words ascii_lower
       (Readable [row_of [("word", "Apple"); ("pronunciation", "zzz")]%string])
       (Some (lit "zzz")) None None) init
  = Some (JsonObject (Meta 0 1 50 0 (lit "zzz")) []).
Proof. reflexivity. Qed.

(** A blank [q] filters nothing and still selects the envelope. *)
Example blank_q_is_paginated :
  words_of (response_of (get_words ascii_lower fruit_source (Some (lit "  "))
                           None None) init)
  = [lit "Apple"; lit "Banana"; lit "Car"].
Proof. reflexivity. Qed.

(** A page or a limit out of the bounds of the route is refused. *)
Example page_zero_is_refused :
  fst (route_get_words ascii_lower fruit_source None (Some 0) None init)
  = Raise RequestValidationError
  /\ fst (route_get_words ascii_lower fruit_source None None (Some 501) init)
     = Raise RequestValidationError.
Proof. split; reflexivity. Qed.

(** * Further properties of the handler *)

Section Answers.

Variable lower : str -> str.

(** On a process that has loaded [ws], the body of every answer is a
    function of [ws] and the parameters. *)
Lemma get_words_answer (src : source) (q : option str) (page limit : option Z)
    (s : state) (ws : list dict) :
  dataset s ws ->
  answer (get_words lower src q page limit) s
  = Some (if any_supplied q page limit then
            JsonObject (meta_of (filtered_of lower q ws) q page limit)
              (page_of (filtered_of lower q ws) page limit)
          else JsonArray ws).
Proof.
  intros (l & Hc & Hws & Hrec). unfold answer.
  destruct (get_words_run lower src q page limit s s l ws
              (load_words_hit src s l Hc) Hws Hrec)
    as (filtered & s2 & Hf & Hfs & ->).
  destruct (any_supplied q page limit) eqn:Hany; simpl.
  - by rewrite lookup_insert_eq.
  - rewrite Hfs. simpl. f_equal. f_equal.
    destruct q as [qs|]; [discriminate Hany | done].
Qed.

Lemma page_of_forward (fs : list dict) (page limit : option Z) :
  1 <= int_or page 1 -> 1 <= int_or limit 50 ->
  page_of fs page limit
  = take (Z.to_nat (int_or limit 50))
      (drop (Z.to_nat ((int_or page 1 - 1) * int_or limit 50)) fs).
Proof. intros Hp Hl. unfold page_of. apply py_slice_forward; nia. Qed.

Lemma valid_page_int_or (page : option Z) :
  valid_page page = true -> 1 <= int_or page 1.
Proof.
  destruct page as [p|]; simpl; [|lia].
  intros H. destruct (p =? 0) eqn:E; lia.
Qed.

Lemma valid_limit_int_or (limit : option Z) :
  valid_limit limit = true -> 1 <= int_or limit 50 <= 500.
Proof.
  destruct limit as [l|]; simpl; [|lia].
  intros H. destruct (l =? 0) eqn:E; lia.
Qed.

End Answers.

(** The number of pages: between 0 and the total, and enough pages of
    [l] elements for the total, with none to spare. *)
Lemma page_count_bounds (t l : Z) :
  0 <= t -> 1 <= l ->
  0 <= page_count t l <= t
  /\ (page_count t l - 1) * l < t <= page_count t l * l.
Proof.
  intros Ht Hl. unfold page_count.
  destruct (l =? 0) eqn:E; [lia|].
  pose proof (Z.div_mod (t + l - 1) l ltac:(lia)) as Hdm.
  pose proof (Z.mod_pos_bound (t + l - 1) l ltac:(lia)) as Hmod.
  nia.
Qed.

Lemma int_or_some (v d : Z) : v <> 0 -> int_or (Some v) d = v.
Proof. intros H. unfold int_or. destruct (v =? 0) eqn:E; [lia | done]. Qed.

(** The pages up to the [k]-th, one after the other, are the first
    [k * l] elements. *)
Lemma pages_prefix (fs : list dict) (l : Z) (k : nat) :
  1 <= l ->
  concat (map (fun p => page_of fs (Some p) (Some l)) (seqZ 1 (Z.of_nat k)))
  = take (k * Z.to_nat l) fs.
Proof.
  intros Hl. induction k as [|k IH].
  - reflexivity.
  - rewrite seqZ_S, map_app, concat_app, IH.
    change (concat (map (fun p => page_of fs (Some p) (Some l))
                      [1 + Z.of_nat k]))
      with (page_of fs (Some (1 + Z.of_nat k)) (Some l) ++ []).
    rewrite app_nil_r.
    rewrite page_of_forward; rewrite !int_or_some by lia; try lia.
    replace (Z.to_nat ((1 + Z.of_nat k - 1) * l))
      with (k * Z.to_nat l)%nat by nia.
    rewrite take_take_drop. f_equal. lia.
Qed.

(** X1. The pages partition the result. For a limit of at least 1, the
    [items] of the pages 1 to [meta.pages], one after the other, are the
    filtered list: every match is on one page, and on one only. *)
Theorem pages_partition (lower : str -> str) (src : source) (q : option str)
    (l : Z) (s : state) (ws : list dict) :
  dataset s ws -> 1 <= l ->
  concat
    (map (fun p =>
            match answer (get_words lower src q (Some p) (Some l)) s with
            | Some b => items_of_body b
            | None => []
            end)
       (seqZ 1 (page_count (Z.of_nat (length (filtered_of lower q ws))) l)))
  = filtered_of lower q ws.
Proof.
  intros Hws Hl. set (fs := filtered_of lower q ws).
  assert (Hpage : forall p,
             match answer (get_words lower src q (Some p) (Some l)) s with
             | Some b => items_of_body b
             | None => []
             end = page_of fs (Some p) (Some l)).
  { intros p. rewrite (get_words_answer lower src q (Some p) (Some l) s ws Hws).
    assert (Hany : any_supplied q (Some p) (Some l) = true).
    { apply any_supplied_true. right. left. by eexists. }
    by rewrite Hany. }
  rewrite (map_ext _ _ Hpage).
  destruct (page_count_bounds (Z.of_nat (length fs)) l ltac:(lia) Hl)
    as [Hn [_ Hcover]].
  rewrite <- (Z2Nat.id (page_count (Z.of_nat (length fs)) l)) by lia.
  rewrite (pages_prefix fs l _ Hl). apply take_ge. nia.
Qed.

(** X2. The size of a page. In every paginated response of the route,
    [items] has [min(limit, total - (page-1)*limit)] elements, or none when
    that is negative: never more than [meta.limit], which is at most 500. *)
Theorem page_size (lower : str -> str) (src : source) (q : option str)
    (page limit : option Z) (s s' : state) (m : meta) (items : loc) :
  route_get_words lower src q page limit s
  = (Return (Envelope m items), s') ->
  exists its,
    heap s' !! items = Some its
    /\ Z.of_nat (length its)
       = Z.max 0 (Z.min (meta_limit m)
                    (meta_total m - (meta_page m - 1) * meta_limit m))
    /\ Z.of_nat (length its) <= meta_limit m <= 500.
Proof.
  unfold route_get_words. intros H.
  destruct (valid_page page && valid_limit limit) eqn:Hv; [|discriminate].
  apply andb_true_iff in Hv as [Hp Hl].
  apply valid_page_int_or in Hp. apply valid_limit_int_or in Hl.
  apply get_words_envelope in H as (fs & -> & Hits & _).
  exists (page_of fs page limit). split; [done|]. simpl.
  rewrite page_of_forward by lia.
  rewrite length_take, length_drop.
  assert (Ha : 0 <= (int_or page 1 - 1) * int_or limit 50) by nia.
  revert Ha. generalize ((int_or page 1 - 1) * int_or limit 50). lia.
Qed.

(** X3. The last page. In every paginated response of the route, [items]
    is not empty exactly when [meta.page] is at most [meta.pages];
    [meta.pages] is 0 exactly when nothing matches, and never above
    [meta.total]. *)
Theorem last_page (lower : str -> str) (src : source) (q : option str)
    (page limit : option Z) (s s' : state) (m : meta) (items : loc) :
  route_get_words lower src q page limit s
  = (Return (Envelope m items), s') ->
  exists its,
    heap s' !! items = Some its
    /\ (its <> [] <-> meta_page m <= meta_pages m)
    /\ (meta_pages m = 0 <-> meta_total m = 0)
    /\ 0 <= meta_pages m <= meta_total m.
Proof.
  unfold route_get_words. intros H.
  destruct (valid_page page && valid_limit limit) eqn:Hv; [|discriminate].
  apply andb_true_iff in Hv as [Hp Hl].
  apply valid_page_int_or in Hp. apply valid_limit_int_or in Hl.
  apply get_words_envelope in H as (fs & -> & Hits & _).
  exists (page_of fs page limit). split; [done|]. simpl.
  destruct (page_count_bounds (Z.of_nat (length fs)) (int_or limit 50)
              ltac:(lia) ltac:(lia)) as [Hn Hcover].
  split; [|split; [|done]].
  - rewrite page_of_forward by lia.
    set (its := take _ _).
    assert (Hlen : Z.of_nat (length its)
                   = Z.max 0 (Z.min (int_or limit 50)
                                (Z.of_nat (length fs)
                                 - (int_or page 1 - 1) * int_or limit 50))).
    { unfold its. rewrite length_take, length_drop.
      assert (Ha : 0 <= (int_or page 1 - 1) * int_or limit 50) by nia.
      revert Ha. generalize ((int_or page 1 - 1) * int_or limit 50). lia. }
    assert (Hne : its <> [] <-> 0 < Z.of_nat (length its)).
    { destruct its; simpl; split; (congruence || lia). }
    rewrite Hne, Hlen. split; intros H; nia.
  - split; intros H; nia.
Qed.

(** ** Answers and the dataset *)

Lemma list_filter_sublist {A : Type} (f : A -> bool) (l : list A) :
  List.filter f l `sublist_of` l.
Proof.
  induction l as [|x l IH]; simpl; [constructor|].
  destruct (f x); by constructor.
Qed.

Lemma py_slice_sublist {A : Type} (l : list A) (start stop : Z) :
  py_slice l start stop `sublist_of` l.
Proof.
  unfold py_slice. etrans; [apply sublist_take | apply sublist_drop].
Qed.

Lemma filtered_of_sublist (lower : str -> str) (q : option str)
    (ws : list dict) :
  filtered_of lower q ws `sublist_of` ws.
Proof.
  unfold filtered_of. destruct q as [qs|]; [|done].
  destruct (truthy (strip qs)); [apply list_filter_sublist | done].
Qed.

(** X4. An answer holds records of the dataset only. On a process that has
    loaded [ws], the records of every answer are records of [ws], in the
    order of [ws] and each at most as often as in [ws]; with no parameter
    they are all of [ws]. *)
Theorem answers_are_sublists (lower : str -> str) (src : source)
    (q : option str) (page limit : option Z) (s : state) (ws : list dict) :
  dataset s ws ->
  exists b,
    answer (get_words lower src q page limit) s = Some b
    /\ items_of_body b `sublist_of` ws
    /\ (q = None -> page = None -> limit = None -> b = JsonArray ws).
Proof.
  intros Hws. rewrite (get_words_answer lower src q page limit s ws Hws).
  eexists. split; [reflexivity|]. split.
  - destruct (any_supplied q page limit); simpl; [|done].
    etrans; [apply py_slice_sublist | apply filtered_of_sublist].
  - by intros -> -> ->.
Qed.

(** X5. Answers do not change. On a process that has loaded [ws], a request
    gets the same body after any number of other requests, and whatever
    the path holds when it arrives: the file is not looked at again. *)
Theorem answers_do_not_change (lower : str -> str) (s : state)
    (ws : list dict) (reqs : list (source * request)) (src src' : source)
    (q : option str) (page limit : option Z) :
  dataset s ws ->
  answer (get_words lower src' q page limit) (serve lower reqs s)
  = answer (get_words lower src q page limit) s.
Proof.
  intros Hws.
  assert (Hws' : dataset (serve lower reqs s) ws).
  { destruct Hws as (l & Hc & Hl & Hrec).
    destruct (serve_frame lower reqs s l Hc) as (Hc' & _ & Hh').
    exists l. auto. }
  by rewrite !(get_words_answer lower _ q page limit _ ws).
Qed.

(** X6. The handler raises what the loader raises, and nothing else. On a
    process whose cache has the invariant, a request raises exactly when its
    call of [load_words] raises, and then the same exception; no record
    makes the search raise. *)
Theorem handler_raises_what_loader_raises (lower : str -> str) (src : source)
    (q : option str) (page limit : option Z) (s : state) :
  inv s ->
  match fst (load_words src s) with
  | Raise e => fst (get_words lower src q page limit s) = Raise e
  | Return _ => exists r, fst (get_words lower src q page limit s) = Return r
  end.
Proof.
  intros Hinv. destruct (load_words src s) as [[e|l] s1] eqn:Hload; simpl.
  - by rewrite get_words_unfold, Hload.
  - destruct (load_words_return _ _ _ _ Hinv Hload)
      as (_ & (ws & Hws & Hrec) & _ & _).
    destruct (get_words_run lower src q page limit s s1 l ws Hload Hws Hrec)
      as (filtered & s2 & _ & _ & ->).
    destruct (any_supplied q page limit); by eexists.
Qed.

(** The state after requests that all find no readable file. *)
Lemma serve_unreadable (lower : str -> str) (reqs : list (source * request))
    (s : state) :
  cache s = None ->
  Forall (fun sr => forall rows, sr.1 <> Readable rows) reqs ->
  serve lower reqs s
  = State (heap s) None (length reqs + loads s).
Proof.
  revert s. induction reqs as [|[src r] reqs IH]; intros s Hc Hreqs.
  - simpl. destruct s; simpl in *. by subst.
  - apply Forall_cons in Hreqs as [Hsrc Hreqs]. simpl in *.
    rewrite get_words_unfold, (load_words_miss _ _ Hc).
    destruct src as [|e|rows]; [| |by destruct (Hsrc rows)];
      simpl; rewrite IH by done; simpl; f_equal; lia.
Qed.

(** X7. A failed load is tried again, and the file is served once it is
    there. After requests that found no file, or one that could not be read,
    the body of the loader has been executed once for each of them and
    nothing is cached; the next request that finds a readable file gets its
    rows, normalized, as the dataset. *)
Theorem file_is_served_once_readable (lower : str -> str)
    (reqs : list (source * request)) (rows : list row) :
  Forall (fun sr => forall rows', sr.1 <> Readable rows') reqs ->
  loads (serve lower reqs init) = length reqs
  /\ cache (serve lower reqs init) = None
  /\ answer (get_words lower (Readable rows) None None None)
       (serve lower reqs init)
     = Some (JsonArray (items_of_rows rows)).
Proof.
  intros Hreqs. rewrite (serve_unreadable lower reqs init eq_refl Hreqs).
  simpl. split; [lia|]. split; [done|].
  set (s := State ∅ None (length reqs + 0)).
  pose proof (load_words_miss (Readable rows) s eq_refl) as Hload.
  cbv beta iota in Hload.
  destruct (get_words_run lower (Readable rows) None None None s _ _
              (items_of_rows rows) Hload (lookup_insert_eq _ _ _)
              (items_of_rows_records rows))
    as (filtered & s2 & Hf & Hfs & Hrun).
  unfold answer. rewrite Hrun, any_supplied_none. simpl. by rewrite Hfs.
Qed.

(** The answer to a request whose call of the loader returns [ws]. *)
Lemma answer_after_load (lower : str -> str) (src : source) (q : option str)
    (page limit : option Z) (s s1 : state) (l : loc) (ws : list dict) :
  load_words src s = (Return l, s1) ->
  heap s1 !! l = Some ws -> Forall record ws ->
  answer (get_words lower src q page limit) s
  = Some (if any_supplied q page limit then
            JsonObject (meta_of (filtered_of lower q ws) q page limit)
              (page_of (filtered_of lower q ws) page limit)
          else JsonArray ws).
Proof.
  intros Hload Hws Hrec. unfold answer.
  destruct (get_words_run lower src q page limit s s1 l ws Hload Hws Hrec)
    as (filtered & s2 & Hf & Hfs & ->).
  destruct (any_supplied q page limit) eqn:Hany; simpl.
  - by rewrite lookup_insert_eq.
  - rewrite Hfs. simpl. f_equal. f_equal.
    destruct q as [qs|]; [discriminate Hany | done].
Qed.

Lemma sublist_omap {A B : Type} (f : A -> option B) (l1 l2 : list A) :
  l1 `sublist_of` l2 -> omap f l1 `sublist_of` omap f l2.
Proof.
  induction 1 as [|x l1 l2 _ IH|x l1 l2 _ IH]; simpl.
  - constructor.
  - destruct (f x); [by constructor | done].
  - destruct (f x); [by constructor | done].
Qed.

Lemma item_ids_enumerate (a : Z) (rows : list row) :
  omap item_id (map (fun '(idx, r) => make_item idx r) (enumerate a rows))
  = seqZ a (Z.of_nat (length rows)).
Proof.
  revert a. induction rows as [|r rows IH]; intros a; [done|].
  rewrite seqZ_cons by (simpl; lia).
  cbn [enumerate map omap list_omap length].
  unfold item_id at 1. rewrite make_item_id. cbn [mbind option_bind].
  rewrite IH. do 2 f_equal; lia.
Qed.

Lemma record_has_id (d : dict) : record d -> is_Some (item_id d).
Proof. intros [[n Hn] _]. unfold item_id. rewrite Hn. by eexists. Qed.

Lemma omap_length_all {A B : Type} (f : A -> option B) (l : list A) :
  Forall (fun x => is_Some (f x)) l -> length (omap f l) = length l.
Proof.
  induction 1 as [|x l [y Hy] _ IH]; [done|].
  cbn [omap list_omap]. rewrite Hy. simpl. f_equal. exact IH.
Qed.

(** X8. The ids of an answer. When the first request finds a readable file
    of [n] rows, the ids of the records it answers with are numbers from 1
    to [n] in increasing order, no id twice, and every record has one. *)
Theorem answer_ids (lower : str -> str) (rows : list row) (q : option str)
    (page limit : option Z) (s : state) :
  cache s = None ->
  exists b,
    answer (get_words lower (Readable rows) q page limit) s = Some b
    /\ omap item_id (items_of_body b)
       `sublist_of` seqZ 1 (Z.of_nat (length rows))
    /\ NoDup (omap item_id (items_of_body b))
    /\ length (omap item_id (items_of_body b)) = length (items_of_body b).
Proof.
  intros Hc.
  pose proof (load_words_miss (Readable rows) s Hc) as Hload.
  cbv beta iota in Hload.
  rewrite (answer_after_load lower _ q page limit s _ _ (items_of_rows rows)
             Hload (lookup_insert_eq _ _ _) (items_of_rows_records rows)).
  eexists. split; [reflexivity|].
  set (b := if any_supplied q page limit then _ else _).
  assert (Hsub : items_of_body b `sublist_of` items_of_rows rows).
  { unfold b. destruct (any_supplied q page limit); simpl; [|done].
    etrans; [apply py_slice_sublist | apply filtered_of_sublist]. }
  assert (Hids : omap item_id (items_of_body b)
                 `sublist_of` seqZ 1 (Z.of_nat (length rows))).
  { rewrite <- item_ids_enumerate. by apply sublist_omap. }
  split; [done|]. split.
  - eapply sublist_NoDup; [apply NoDup_seqZ | exact Hids].
  - apply omap_length_all.
    assert (Hrec : Forall record (items_of_body b)).
    { rewrite Forall_forall. intros d Hd.
      pose proof (items_of_rows_records rows) as Hall.
      rewrite Forall_forall in Hall. apply Hall.
      eapply sublist_submseteq, elem_of_submseteq in Hsub; eauto. }
    eapply Forall_impl; [exact Hrec|]. apply record_has_id.
Qed.

(** * Further properties of the loader *)

(** X9. The keys of a record. Whatever columns the rows of the file have,
    every record the loader builds has the ten keys ["id"], ["word"],
    ["pronunciation"], ["definition"], ["example"], ["audio"], ["image"],
    ["file"], ["part_of_speech"], ["word_uz"], and no other: a column with
    another name is dropped. *)
Theorem loaded_keys (rows : list row) :
  Forall (fun d : dict =>
            dom d
            = list_to_set
                ["id"; "word"; "pronunciation"; "definition"; "example";
                 "audio"; "image"; "file"; "part_of_speech"; "word_uz"]%string)
    (items_of_rows rows).
Proof.
  unfold items_of_rows. generalize (enumerate 1 rows). intros l.
  induction l as [|[idx r] l IH]; constructor; [|done].
  unfold make_item.
  rewrite dom_insert_L, dom_list_to_map_L.
  rewrite list_to_set_cons. by f_equal.
Qed.

(** X10. The loader reads nine columns. Two files whose rows agree, row by
    row, on the nine columns give the same dataset, where a column that is
    absent, a field that the line does not have and the empty string
    count as the same: other columns, and which of the three it is, do not
    show. *)
Theorem loader_reads_nine_columns (rows rows' : list row) :
  Forall2 (fun r r' : row =>
             forall k, k ∈ text_fields -> source_field r k = source_field r' k)
    rows rows' ->
  items_of_rows rows = items_of_rows rows'.
Proof.
  intros H. unfold items_of_rows. generalize 1.
  induction H as [|r r' rows rows' Hr _ IH]; intros a; simpl; [done|].
  rewrite IH. f_equal. unfold make_item. do 2 f_equal.
  apply map_ext_in. intros k Hk. apply list_elem_of_In in Hk.
  by rewrite !cell_source_field, (Hr k Hk).
Qed.

(** * Further properties of the search *)

Lemma substring_trans (a b c : str) :
  substring a b -> substring b c -> substring a c.
Proof.
  intros (p1 & q1 & ->) (p2 & q2 & ->).
  exists (p2 ++ p1), (q1 ++ q2). by rewrite <- !app_assoc.
Qed.

Lemma list_filter_narrow {A : Type} (f g : A -> bool) (l : list A) :
  (forall x, g x = true -> f x = true) ->
  List.filter g l `sublist_of` List.filter f l.
Proof.
  intros Hfg. induction l as [|x l IH]; simpl; [constructor|].
  destruct (g x) eqn:Hg.
  - rewrite (Hfg x Hg). by constructor.
  - destruct (f x); [by constructor | done].
Qed.

(** X11. A longer needle finds no more. On a dataset of records, when the
    needle of [q1] is a substring of the needle of [q2], both non-blank,
    every record that [q2] finds [q1] finds too: the list filtered by [q2]
    is a sublist of the list filtered by [q1]. *)
Theorem longer_needle_finds_less (lower : str -> str) (s : state)
    (all_words : loc) (ws : list dict) (q1 q2 : str) :
  heap s !! all_words = Some ws -> Forall record ws ->
  strip q1 <> [] -> strip q2 <> [] ->
  substring (lower (strip q1)) (lower (strip q2)) ->
  exists f1 s1 fs1 f2 s2 fs2,
    filter_words lower (Some q1) all_words s = (Return f1, s1)
    /\ heap s1 !! f1 = Some fs1
    /\ filter_words lower (Some q2) all_words s = (Return f2, s2)
    /\ heap s2 !! f2 = Some fs2
    /\ fs2 `sublist_of` fs1.
Proof.
  intros Hws Hrec H1 H2 Hsub.
  apply truthy_cons in H1. apply truthy_cons in H2.
  pose proof (filter_words_run lower (Some q1) all_words ws s Hws Hrec) as Hf1.
  pose proof (filter_words_run lower (Some q2) all_words ws s Hws Hrec) as Hf2.
  cbv beta iota in Hf1, Hf2. rewrite H1 in Hf1. rewrite H2 in Hf2.
  eexists _, _, _, _, _, _.
  split; [exact Hf1|]. split; [apply lookup_insert_eq|].
  split; [exact Hf2|]. split; [apply lookup_insert_eq|].
  unfold filtered_of. rewrite H1, H2.
  apply list_filter_narrow. intros d Hd.
  apply hitb_spec in Hd as (k & Hk & Hd). apply hitb_spec.
  exists k. split; [done|]. by apply (substring_trans _ _ _ Hsub).
Qed.

(** X12. White space around [q] is not searched for. On a process that
    has loaded [ws], two values of [q] that are the same after trimming get
    the same records, total and pages; only [meta.q] shows what was
    sent. *)
Theorem padding_of_q_is_ignored (lower : str -> str) (src : source)
    (q1 q2 : str) (page limit : option Z) (s : state) (ws : list dict) :
  dataset s ws -> strip q1 = strip q2 ->
  exists m1 m2 items,
    answer (get_words lower src (Some q1) page limit) s
    = Some (JsonObject m1 items)
    /\ answer (get_words lower src (Some q2) page limit) s
       = Some (JsonObject m2 items)
    /\ meta_total m1 = meta_total m2
    /\ meta_pages m1 = meta_pages m2
    /\ meta_q m1 = q1 /\ meta_q m2 = q2.
Proof.
  intros Hws Hq.
  rewrite !(get_words_answer lower src _ page limit s ws Hws).
  assert (Hany : forall qs, any_supplied (Some qs) page limit = true).
  { intros qs. apply any_supplied_true. left. by eexists. }
  rewrite !Hany.
  assert (Hfs : filtered_of lower (Some q1) ws = filtered_of lower (Some q2) ws).
  { unfold filtered_of. by rewrite Hq. }
  rewrite Hfs. eexists _, _, _. split; [reflexivity|]. split; [reflexivity|].
  simpl. repeat split; [by destruct q1 | by destruct q2].
Qed.

(** * Further properties of calls that overlap *)

Lemma running_insert (ts : list thread) (i : nat) (t0 t : thread) :
  ts !! i = Some t0 ->
  (running (<[i := t]> ts) + (if is_running t0 then 1 else 0)
   = running ts + (if is_running t then 1 else 0))%nat.
Proof.
  unfold running. revert i.
  induction ts as [|t1 ts IH]; intros [|i] H; simpl in *; try done.
  - injection H as ->. destruct (is_running t0), (is_running t); simpl; lia.
  - specialize (IH i H). destruct (is_running t1); simpl; lia.
Qed.

Lemma load_words_body_frame (src : source) (s s' : state) (o : outcome loc) :
  load_words_body src s = (o, s') ->
  cache s' = cache s /\ loads s' = S (loads s)
  /\ (forall l xs, heap s !! l = Some xs -> heap s' !! l = Some xs).
Proof.
  rewrite load_words_body_run.
  destruct src; intros [= <- <-]; simpl; repeat split; auto.
  intros l xs. apply lookup_alloc_old.
Qed.

(** X14. The stored result is kept. However the calls interleave, once a
    list is in the cache it stays there, with its elements, and no call
    misses any more: from then on the body of the loader is executed only by
    the calls that had missed before, once each. *)
Theorem stored_result_is_kept (src : source) (w w' : world) (l : loc)
    (ws : list dict) :
  cache (shared w) = Some l -> heap (shared w) !! l = Some ws ->
  rtc (step src) w w' ->
  cache (shared w') = Some l
  /\ heap (shared w') !! l = Some ws
  /\ (loads (shared w') + running (threads w')
      = loads (shared w) + running (threads w))%nat.
Proof.
  intros Hc Hl Hsteps. revert w' Hsteps.
  apply (rtc_ind_r
           (fun w' =>
              cache (shared w') = Some l
              /\ heap (shared w') !! l = Some ws
              /\ (loads (shared w') + running (threads w')
                  = loads (shared w) + running (threads w))%nat) w);
    [done|].
  intros w1 w2 _ Hstep (Hc1 & Hl1 & Hn1).
  destruct Hstep as [w1 i l' Hi Hl' | w1 i Hi Hl' | w1 i l' s' Hi Hb
                    | w1 i e s' Hi Hb]; simpl.
  - pose proof (running_insert _ i _ (Finished (Return l')) Hi) as Hr.
    simpl in Hr. repeat split; [done | done | lia].
  - congruence.
  - destruct (load_words_body_frame _ _ _ _ Hb) as (Hc' & Hn' & Hh').
    pose proof (running_insert _ i _ (Finished (Return l')) Hi) as Hr.
    simpl in Hr. rewrite Hc', Hc1. repeat split; [auto | lia].
  - destruct (load_words_body_frame _ _ _ _ Hb) as (Hc' & Hn' & Hh').
    pose proof (running_insert _ i _ (Finished (Raise e)) Hi) as Hr.
    simpl in Hr. repeat split; [congruence | auto | lia].
Qed.

(** * Memoization *)

Lemma calling_insert (ts : list thread) (i : nat) (t0 t : thread) :
  ts !! i = Some t0 ->
  (calling (<[i := t]> ts) + (if is_calling t0 then 1 else 0)
   = calling ts + (if is_calling t then 1 else 0))%nat.
Proof.
  unfold calling. revert i.
  induction ts as [|t1 ts IH]; intros [|i] H; simpl in *; try done.
  - injection H as ->. destruct (is_calling t0), (is_calling t); simpl; lia.
  - specialize (IH i H). destruct (is_calling t1); simpl; lia.
Qed.

Lemma all_calling (ts : list thread) :
  Forall (fun t => t = Calling) ts ->
  running ts = 0%nat /\ calling ts = length ts.
Proof.
  unfold running, calling.
  induction 1 as [|t ts -> _ [IH1 IH2]]; simpl; [done|]. split; [done | lia].
Qed.

Lemma lookup_insert_thread (ts : list thread) (i j : nat) (t t' : thread) :
  is_Some (ts !! i) ->
  <[i := t]> ts !! j = Some t' ->
  i = j /\ t' = t \/ i <> j /\ ts !! j = Some t'.
Proof.
  intros Hi Hj. destruct (decide (i = j)) as [<- | Hne].
  - rewrite list_lookup_insert_eq in Hj by (by apply lookup_lt_is_Some).
    left. split; congruence.
  - rewrite list_lookup_insert_ne in Hj by done. by right.
Qed.

(** Once a list is stored: it stays, no call misses, and the calls that had
    not looked the key up return it. *)
Lemma steps_after_store (src : source) (w w' : world) (l : loc)
    (ws : list dict) :
  cache (shared w) = Some l -> heap (shared w) !! l = Some ws ->
  rtc (step src) w w' ->
  cache (shared w') = Some l
  /\ heap (shared w') !! l = Some ws
  /\ (loads (shared w') + running (threads w')
      = loads (shared w) + running (threads w))%nat
  /\ (forall i o, threads w !! i = Some Calling ->
                  threads w' !! i = Some (Finished o) -> o = Return l).
Proof.
  intros Hc Hl Hsteps.
  assert (P : cache (shared w') = Some l
              /\ heap (shared w') !! l = Some ws
              /\ (loads (shared w') + running (threads w')
                  = loads (shared w) + running (threads w))%nat
              /\ (forall i, threads w !! i = Some Calling ->
                            threads w' !! i = Some Calling
                            \/ threads w' !! i = Some (Finished (Return l)))).
  { revert w' Hsteps.
    apply (rtc_ind_r
             (fun w' =>
                cache (shared w') = Some l
                /\ heap (shared w') !! l = Some ws
                /\ (loads (shared w') + running (threads w')
                    = loads (shared w) + running (threads w))%nat
                /\ (forall i, threads w !! i = Some Calling ->
                              threads w' !! i = Some Calling
                              \/ threads w' !! i
                                 = Some (Finished (Return l)))) w).
    { repeat split; auto. }
    intros w1 w2 _ Hstep (Hc1 & Hl1 & Hn1 & Ht1).
    assert (Hkeep : forall (i : nat) (t0 t : thread),
               threads w1 !! i = Some t0 ->
               (t0 = Calling -> t = Finished (Return l)) ->
               (t0 <> Calling -> t0 = Running) ->
               forall j, threads w !! j = Some Calling ->
                         <[i := t]> (threads w1) !! j = Some Calling
                         \/ <[i := t]> (threads w1) !! j
                            = Some (Finished (Return l))).
    { intros i t0 t Hi Hcall Hrun j Hj.
      destruct (decide (i = j)) as [<- | Hne].
      - rewrite list_lookup_insert_eq by (by eapply lookup_lt_Some).
        destruct (Ht1 i Hj) as [E | E]; rewrite Hi in E; injection E as ->.
        + right. by rewrite Hcall.
        + by specialize (Hrun ltac:(discriminate)).
      - rewrite list_lookup_insert_ne by done. auto. }
    destruct Hstep as [w1 i l' Hi Hl' | w1 i Hi Hl' | w1 i l' s' Hi Hb
                      | w1 i e s' Hi Hb]; simpl.
    - pose proof (running_insert _ i _ (Finished (Return l')) Hi) as Hr.
      simpl in Hr. split; [done|]. split; [done|]. split; [lia|].
      apply (Hkeep i Calling _ Hi); [|done].
      intros _. congruence.
    - congruence.
    - destruct (load_words_body_frame _ _ _ _ Hb) as (Hc' & Hn' & Hh').
      pose proof (running_insert _ i _ (Finished (Return l')) Hi) as Hr.
      simpl in Hr. rewrite Hc', Hc1.
      split; [done|]. split; [auto|]. split; [lia|].
      apply (Hkeep i Running _ Hi); [discriminate | done].
    - destruct (load_words_body_frame _ _ _ _ Hb) as (Hc' & Hn' & Hh').
      pose proof (running_insert _ i _ (Finished (Raise e)) Hi) as Hr.
      simpl in Hr.
      split; [congruence|]. split; [auto|]. split; [lia|].
      apply (Hkeep i Running _ Hi); [discriminate | done]. }
  destruct P as (P1 & P2 & P3 & P4).
  split; [done|]. split; [done|]. split; [done|].
  intros i o Hi Ho. destruct (P4 i Hi) as [E | E]; congruence.
Qed.

(** From the start: each call executes the body at most once, and a list
    that a call returns holds every record of the source. *)
Lemma steps_from_start (src : source) (s0 : state) (ts : list thread)
    (w : world) :
  cache s0 = None -> Forall (fun t => t = Calling) ts ->
  rtc (step src) (World s0 ts) w ->
  (loads (shared w) + running (threads w) + calling (threads w)
   <= loads s0 + length ts)%nat
  /\ (forall rows i l,
         src = Readable rows ->
         threads w !! i = Some (Finished (Return l)) ->
         heap (shared w) !! l = Some (items_of_rows rows)).
Proof.
  intros Hc Hts Hsteps.
  assert (Q : (loads (shared w) + running (threads w) + calling (threads w)
               <= loads s0 + length ts)%nat
              /\ (forall rows, src = Readable rows ->
                    (forall l, cache (shared w) = Some l ->
                               heap (shared w) !! l
                               = Some (items_of_rows rows))
                    /\ (forall i l,
                           threads w !! i = Some (Finished (Return l)) ->
                           heap (shared w) !! l
                           = Some (items_of_rows rows)))).
  { revert w Hsteps.
    apply (rtc_ind_r
             (fun w =>
                (loads (shared w) + running (threads w)
                 + calling (threads w) <= loads s0 + length ts)%nat
                /\ (forall rows, src = Readable rows ->
                      (forall l, cache (shared w) = Some l ->
                                 heap (shared w) !! l
                                 = Some (items_of_rows rows))
                      /\ (forall i l,
                             threads w !! i = Some (Finished (Return l)) ->
                             heap (shared w) !! l
                             = Some (items_of_rows rows))))
             (World s0 ts)).
    { simpl. destruct (all_calling ts Hts) as [-> ->]. split; [lia|].
      intros rows _. split; [intros l Hl; congruence|].
      intros i l Hi. rewrite Forall_lookup in Hts.
      by pose proof (Hts i _ Hi). }
    intros w1 w2 _ Hstep [Hn J].
    destruct Hstep as [w1 i l Hi Hl | w1 i Hi Hl | w1 i l s' Hi Hb
                      | w1 i e s' Hi Hb]; simpl.
    - pose proof (running_insert _ i _ (Finished (Return l)) Hi) as Hr.
      pose proof (calling_insert _ i _ (Finished (Return l)) Hi) as Hk.
      simpl in Hr, Hk. split; [lia|].
      intros rows Hsrc. destruct (J rows Hsrc) as [J1 J2].
      split; [done|]. intros j l' Hj.
      destruct (lookup_insert_thread _ i j _ _ ltac:(by eexists) Hj)
        as [[_ [= <-]] | [_ Hj']]; eauto.
    - pose proof (running_insert _ i _ Running Hi) as Hr.
      pose proof (calling_insert _ i _ Running Hi) as Hk.
      simpl in Hr, Hk. split; [lia|].
      intros rows Hsrc. destruct (J rows Hsrc) as [J1 J2].
      split; [done|]. intros j l' Hj.
      destruct (lookup_insert_thread _ i j _ _ ltac:(by eexists) Hj)
        as [[_ [=]] | [_ Hj']]; eauto.
    - pose proof (running_insert _ i _ (Finished (Return l)) Hi) as Hr.
      pose proof (calling_insert _ i _ (Finished (Return l)) Hi) as Hk.
      destruct (load_words_body_frame _ _ _ _ Hb) as (Hc' & Hn' & Hh').
      simpl in Hr, Hk. split; [lia|].
      intros rows ->. destruct (J rows eq_refl) as [J1 J2].
      rewrite load_words_body_run in Hb. injection Hb as <- <-. simpl.
      split.
      + intros c Hcache. destruct (cache (shared w1)) as [c'|] eqn:Hc1.
        * injection Hcache as <-. apply lookup_alloc_old. auto.
        * injection Hcache as <-. apply lookup_insert_eq.
      + intros j l' Hj.
        destruct (lookup_insert_thread _ i j _ _ ltac:(by eexists) Hj)
          as [[_ [= <-]] | [_ Hj']].
        * apply lookup_insert_eq.
        * apply lookup_alloc_old. eauto.
    - pose proof (running_insert _ i _ (Finished (Raise e)) Hi) as Hr.
      pose proof (calling_insert _ i _ (Finished (Raise e)) Hi) as Hk.
      destruct (load_words_body_frame _ _ _ _ Hb) as (Hc' & Hn' & Hh').
      simpl in Hr, Hk. split; [lia|].
      intros rows ->. rewrite load_words_body_run in Hb. discriminate. }
  destruct Q as [Q1 Q2]. split; [done|].
  intros rows i l Hsrc Hi. destruct (Q2 rows Hsrc) as [_ J2]. eauto.
Qed.

(** C8, as the code has it. Memoization, without single flight.
    - In sequence: a call that returns the dataset has executed the body at
      most once, and no later request, however many follow and whatever the
      path holds by then, executes it again: each gets the identical cached
      list, with the same elements. A call that raises caches nothing, and
      the next call executes the body again.
    - Under every interleaving, once a list is stored it is never replaced
      and no call misses any more: the body is executed only by the calls
      that had missed before, and every call that looks the key up from then
      on returns the identical cached list.
    - Under every interleaving from the start, each call executes the body at
      most once, and a list that a call returns is complete: it holds every
      record of the source.
    - First calls that overlap are not kept from loading twice: both can
      miss, and then both execute the body and return two lists. *)
Theorem memoization_without_single_flight (lower : str -> str)
    (src : source) :
  (forall (s s1 : state) (o : outcome loc),
      load_words src s = (o, s1) ->
      match o with
      | Return l =>
          (loads s1 <= S (loads s))%nat
          /\ forall reqs : list (source * request),
               loads (serve lower reqs s1) = loads s1
               /\ (forall ws, heap s1 !! l = Some ws ->
                              heap (serve lower reqs s1) !! l = Some ws)
               /\ forall src',
                    load_words src' (serve lower reqs s1)
                    = (Return l, serve lower reqs s1)
      | Raise e =>
          cache s1 = None
          /\ forall src', loads (snd (load_words src' s1)) = S (loads s1)
      end)
  /\ (forall (w w' : world) (l : loc) (ws : list dict),
         cache (shared w) = Some l -> heap (shared w) !! l = Some ws ->
         rtc (step src) w w' ->
         cache (shared w') = Some l
         /\ heap (shared w') !! l = Some ws
         /\ (loads (shared w') + running (threads w')
             = loads (shared w) + running (threads w))%nat
         /\ (forall i o, threads w !! i = Some Calling ->
                         threads w' !! i = Some (Finished o) ->
                         o = Return l))
  /\ (forall (s0 : state) (ts : list thread) (w : world),
         cache s0 = None -> Forall (fun t => t = Calling) ts ->
         rtc (step src) (World s0 ts) w ->
         (loads (shared w) + running (threads w) + calling (threads w)
          <= loads s0 + length ts)%nat
         /\ (forall rows i l,
                src = Readable rows ->
                threads w !! i = Some (Finished (Return l)) ->
                heap (shared w) !! l = Some (items_of_rows rows)))
  /\ (forall rows,
         src = Readable rows ->
         exists w l1 l2,
           rtc (step src) (World init [Calling; Calling]) w
           /\ loads (shared w) = 2%nat
           /\ threads w = [Finished (Return l1); Finished (Return l2)]
           /\ l1 <> l2).
Proof.
  split; [|split; [|split]].
  - intros s s1 o. apply memoized_after_success.
  - intros w w' l ws. apply steps_after_store.
  - intros s0 ts w. apply steps_from_start.
  - intros rows ->.
    destruct (overlapping_calls_load_twice rows)
      as (w & l1 & l2 & Hsteps & Hloads & Hts & Hne & _).
    by exists w, l1, l2.
Qed.

(** * The defensive branch *)

(** X15. The limit of an envelope is never 0. In every envelope the handler
    returns, also when it is called with a page or a limit of 0, which the
    route refuses, [meta.page] and [meta.limit] are not 0: a 0 is replaced by
    1 and by 50. So [meta.pages] is always
    [(total + limit - 1) // limit], never the 1 of the [else]. *)
Theorem limit_is_never_zero (lower : str -> str) (src : source)
    (q : option str) (page limit : option Z) (s s' : state) (m : meta)
    (items : loc) :
  get_words lower src q page limit s = (Return (Envelope m items), s') ->
  meta_page m <> 0 /\ meta_limit m <> 0
  /\ (page = Some 0 -> meta_page m = 1)
  /\ (limit = Some 0 -> meta_limit m = 50)
  /\ meta_pages m = (meta_total m + meta_limit m - 1) / meta_limit m.
Proof.
  intros H. apply get_words_envelope in H as (fs & -> & _). simpl.
  assert (Hp : int_or page 1 <> 0).
  { destruct page as [p|]; simpl; [|lia]. destruct (p =? 0) eqn:E; lia. }
  assert (Hl : int_or limit 50 <> 0).
  { destruct limit as [l|]; simpl; [|lia]. destruct (l =? 0) eqn:E; lia. }
  split; [done|]. split; [done|]. split; [by intros ->|].
  split; [by intros ->|].
  unfold page_count. destruct (int_or limit 50 =? 0) eqn:E; [lia | done].
Qed.

(** * The further properties at concrete requests *)

Lemma loaded_dataset : dataset loaded (items_of_rows three_rows).
Proof.
  exists 1%positive. split; [reflexivity|]. split; [reflexivity|].
  apply items_of_rows_records.
Qed.

Lemma pages_partition_witness :
  dataset loaded (items_of_rows three_rows)
  /\ 1 <= 2
  /\ concat
       (map (fun p =>
               match answer (get_words ascii_lower fruit_source None (Some p)
                               (Some 2)) loaded with
               | Some b => items_of_body b
               | None => []
               end) (seqZ 1 2))
     = items_of_rows three_rows.
Proof.
  split; [exact loaded_dataset|]. split; [lia|].
  exact (pages_partition ascii_lower fruit_source None 2 loaded
           (items_of_rows three_rows) loaded_dataset ltac:(lia)).
Defined.

Lemma page_size_witness :
  route_get_words ascii_lower fruit_source (Some (lit "fruit")) (Some 1)
    (Some 1) init
  = (Return (Envelope (Meta 2 1 1 2 (lit "fruit")) 3%positive),
     snd (route_get_words ascii_lower fruit_source (Some (lit "fruit"))
            (Some 1) (Some 1) init))
  /\ exists its,
       heap (snd (route_get_words ascii_lower fruit_source
                    (Some (lit "fruit")) (Some 1) (Some 1) init))
       !! 3%positive = Some its
       /\ Z.of_nat (length its) = 1.
Proof.
  split; [reflexivity|].
  destruct (page_size ascii_lower fruit_source (Some (lit "fruit")) (Some 1)
              (Some 1) init _ (Meta 2 1 1 2 (lit "fruit")) 3%positive eq_refl)
    as (its & Hits & Hlen & _).
  exists its. split; [exact Hits | exact Hlen].
Defined.

Lemma last_page_witness :
  route_get_words ascii_lower fruit_source (Some (lit "fruit")) (Some 3)
    (Some 1) init
  = (Return (Envelope (Meta 2 3 1 2 (lit "fruit")) 3%positive),
     snd (route_get_words ascii_lower fruit_source (Some (lit "fruit"))
            (Some 3) (Some 1) init))
  /\ exists its,
       heap (snd (route_get_words ascii_lower fruit_source
                    (Some (lit "fruit")) (Some 3) (Some 1) init))
       !! 3%positive = Some its
       /\ (its <> [] <-> 3 <= 2).
Proof.
  split; [reflexivity|].
  destruct (last_page ascii_lower fruit_source (Some (lit "fruit")) (Some 3)
              (Some 1) init _ (Meta 2 3 1 2 (lit "fruit")) 3%positive eq_refl)
    as (its & Hits & Hne & _).
  exists its. split; [exact Hits | exact Hne].
Defined.

Lemma answers_are_sublists_witness :
  dataset loaded (items_of_rows three_rows)
  /\ exists b,
       answer (get_words ascii_lower fruit_source (Some (lit "a")) (Some 2)
                 (Some 1)) loaded = Some b
       /\ items_of_body b `sublist_of` items_of_rows three_rows.
Proof.
  split; [exact loaded_dataset|].
  destruct (answers_are_sublists ascii_lower fruit_source (Some (lit "a"))
              (Some 2) (Some 1) loaded (items_of_rows three_rows)
              loaded_dataset) as (b & Hb & Hsub & _).
  exists b. split; [exact Hb | exact Hsub].
Defined.

Lemma answers_do_not_change_witness :
  dataset loaded (items_of_rows three_rows)
  /\ answer (get_words ascii_lower Missing (Some (lit "car")) None None)
       (serve ascii_lower [(Missing, Request None (Some 2) None)] loaded)
     = answer (get_words ascii_lower fruit_source (Some (lit "car")) None None)
         loaded.
Proof.
  split; [exact loaded_dataset|].
  exact (answers_do_not_change ascii_lower loaded (items_of_rows three_rows)
           [(Missing, Request None (Some 2) None)] fruit_source Missing
           (Some (lit "car")) None None loaded_dataset).
Defined.

Lemma handler_raises_what_loader_raises_witness :
  inv init
  /\ fst (get_words ascii_lower Missing (Some (lit "car")) None None init)
     = Raise FileNotFoundError.
Proof.
  split; [exact inv_init|].
  exact (handler_raises_what_loader_raises ascii_lower Missing
           (Some (lit "car")) None None init inv_init).
Defined.

Lemma file_is_served_once_readable_witness :
  Forall (fun sr : source * request => forall rows', sr.1 <> Readable rows')
    [(Missing, Request None None None);
     (Unreadable UnicodeDecodeError, Request None None None)]
  /\ loads (serve ascii_lower
              [(Missing, Request None None None);
               (Unreadable UnicodeDecodeError, Request None None None)] init)
     = 2%nat
  /\ answer (get_words ascii_lower fruit_source None None None)
       (serve ascii_lower
          [(Missing, Request None None None);
           (Unreadable UnicodeDecodeError, Request None None None)] init)
     = Some (JsonArray (items_of_rows three_rows)).
Proof.
  assert (H : Forall (fun sr : source * request =>
                        forall rows', sr.1 <> Readable rows')
                [(Missing, Request None None None);
                 (Unreadable UnicodeDecodeError, Request None None None)]).
  { repeat constructor; intros rows'; discriminate. }
  split; [exact H|].
  destruct (file_is_served_once_readable ascii_lower _ three_rows H)
    as (Hloads & _ & Hanswer).
  split; [exact Hloads | exact Hanswer].
Defined.

Lemma answer_ids_witness :
  cache init = None
  /\ exists b,
       answer (get_words ascii_lower fruit_source (Some (lit "a")) None None)
         init = Some b
       /\ omap item_id (items_of_body b) `sublist_of` seqZ 1 3.
Proof.
  split; [reflexivity|].
  destruct (answer_ids ascii_lower three_rows (Some (lit "a")) None None init
              eq_refl) as (b & Hb & Hids & _).
  exists b. split; [exact Hb | exact Hids].
Defined.

Lemma loader_reads_nine_columns_witness :
  Forall2 (fun r r' : row =>
             forall k, k ∈ text_fields -> source_field r k = source_field r' k)
    [row_of [("word", "Apple"); ("notes", "red")]%string;
     <["audio"%string := None]> (row_of [("word", "Plum")]%string)]
    [row_of [("word", "Apple")]%string;
     row_of [("word", "Plum"); ("audio", "")]%string]
  /\ items_of_rows
       [row_of [("word", "Apple"); ("notes", "red")]%string;
        <["audio"%string := None]> (row_of [("word", "Plum")]%string)]
     = items_of_rows
         [row_of [("word", "Apple")]%string;
          row_of [("word", "Plum"); ("audio", "")]%string].
Proof.
  assert (H : Forall2 (fun r r' : row =>
                         forall k, k ∈ text_fields ->
                                   source_field r k = source_field r' k)
                [row_of [("word", "Apple"); ("notes", "red")]%string;
                 <["audio"%string := None]> (row_of [("word", "Plum")]%string)]
                [row_of [("word", "Apple")]%string;
                 row_of [("word", "Plum"); ("audio", "")]%string]).
  { repeat constructor; intros k Hk; unfold text_fields in Hk;
      cases_in Hk; reflexivity. }
  split; [exact H | exact (loader_reads_nine_columns _ _ H)].
Defined.

Lemma longer_needle_finds_less_witness :
  heap loaded !! 1%positive = Some (items_of_rows three_rows)
  /\ Forall record (items_of_rows three_rows)
  /\ strip (lit "an") <> [] /\ strip (lit " Banana ") <> []
  /\ substring (ascii_lower (strip (lit "an")))
       (ascii_lower (strip (lit " Banana ")))
  /\ exists fs1 fs2 : list dict, fs2 `sublist_of` fs1.
Proof.
  assert (Hsub : substring (ascii_lower (strip (lit "an")))
                   (ascii_lower (strip (lit " Banana ")))).
  { exists (lit "b"), (lit "ana"). reflexivity. }
  split; [reflexivity|]. split; [apply items_of_rows_records|].
  split; [discriminate|]. split; [discriminate|]. split; [exact Hsub|].
  destruct (longer_needle_finds_less ascii_lower loaded 1%positive
              (items_of_rows three_rows) (lit "an") (lit " Banana ") eq_refl
              (items_of_rows_records three_rows) ltac:(discriminate)
              ltac:(discriminate) Hsub)
    as (f1 & s1 & fs1 & f2 & s2 & fs2 & _ & _ & _ & _ & H).
  exists fs1, fs2. exact H.
Defined.

Lemma padding_of_q_is_ignored_witness :
  dataset loaded (items_of_rows three_rows)
  /\ strip (lit " fruit ") = strip (lit "fruit")
  /\ exists m1 m2 items,
       answer (get_words ascii_lower fruit_source (Some (lit " fruit ")) None
                 None) loaded = Some (JsonObject m1 items)
       /\ answer (get_words ascii_lower fruit_source (Some (lit "fruit")) None
                    None) loaded = Some (JsonObject m2 items)
       /\ meta_total m1 = meta_total m2.
Proof.
  split; [exact loaded_dataset|]. split; [reflexivity|].
  destruct (padding_of_q_is_ignored ascii_lower fruit_source (lit " fruit ")
              (lit "fruit") None None loaded (items_of_rows three_rows)
              loaded_dataset eq_refl)
    as (m1 & m2 & items & H1 & H2 & Ht & _).
  exists m1, m2, items. split; [exact H1|]. split; [exact H2 | exact Ht].
Defined.

Lemma threads_get_whole_lists_witness :
  cache init = None
  /\ Forall (fun t => t = Calling) [Calling]
  /\ rtc (step fruit_source) (World init [Calling])
       (World loaded [Finished (Return 1%positive)])
  /\ heap loaded !! 1%positive = Some (items_of_rows three_rows).
Proof.
  assert (Hts : Forall (fun t => t = Calling) [Calling])
    by (repeat constructor).
  assert (Hsteps : rtc (step fruit_source) (World init [Calling])
                     (World loaded [Finished (Return 1%positive)])).
  { apply one_thread_is_load_words. reflexivity. }
  split; [reflexivity|]. split; [exact Hts|]. split; [exact Hsteps|].
  exact (threads_get_whole_lists three_rows init [Calling]
           (World loaded [Finished (Return 1%positive)]) eq_refl Hts Hsteps
           0%nat 1%positive eq_refl).
Defined.

Lemma stored_result_is_kept_witness :
  cache loaded = Some 1%positive
  /\ heap loaded !! 1%positive = Some (items_of_rows three_rows)
  /\ rtc (step Missing) (World loaded [Calling; Calling])
       (World loaded [Finished (Return 1%positive); Calling])
  /\ cache loaded = Some 1%positive.
Proof.
  assert (Hsteps : rtc (step Missing) (World loaded [Calling; Calling])
                     (World loaded [Finished (Return 1%positive); Calling])).
  { apply rtc_once.
    by apply (step_hit Missing (World loaded [Calling; Calling]) 0%nat
                1%positive). }
  split; [reflexivity|]. split; [reflexivity|]. split; [exact Hsteps|].
  by destruct (stored_result_is_kept Missing
                 (World loaded [Calling; Calling])
                 (World loaded [Finished (Return 1%positive); Calling])
                 1%positive (items_of_rows three_rows) eq_refl eq_refl Hsteps)
    as [H _].
Defined.

Lemma limit_is_never_zero_witness :
  get_words ascii_lower fruit_source None (Some 0) (Some 0) init
  = (Return (Envelope (Meta 3 1 50 1 []) 2%positive),
     snd (get_words ascii_lower fruit_source None (Some 0) (Some 0) init))
  /\ meta_limit (Meta 3 1 50 1 []) <> 0.
Proof.
  split; [reflexivity|].
  by destruct (limit_is_never_zero ascii_lower fruit_source None (Some 0)
                 (Some 0) init _ (Meta 3 1 50 1 []) 2%positive eq_refl)
    as (_ & H & _).
Defined.

Lemma memoization_without_single_flight_witness :
  load_words fruit_source init = (Return 1%positive, loaded)
  /\ loads (serve ascii_lower
              [(Missing, Request (Some (lit "a")) None None);
               (fruit_source, Request None (Some 2) (Some 1))] loaded)
     = 1%nat
  /\ (exists w l1 l2,
         rtc (step fruit_source) (World init [Calling; Calling]) w
         /\ threads w = [Finished (Return l1); Finished (Return l2)]
         /\ (loads (shared w) <= 2)%nat
         /\ heap (shared w) !! l2 = Some (items_of_rows three_rows))
  /\ rtc (step Missing) (World loaded [Calling; Calling])
       (World loaded [Finished (Return 1%positive); Calling])
  /\ cache loaded = Some 1%positive.
Proof.
  destruct (memoization_without_single_flight ascii_lower fruit_source)
    as (Hseq & _ & Hstart & Htwice).
  destruct (memoization_without_single_flight ascii_lower Missing)
    as (_ & Hstored & _ & _).
  assert (Hsteps : rtc (step Missing) (World loaded [Calling; Calling])
                     (World loaded [Finished (Return 1%positive); Calling])).
  { apply rtc_once.
    by apply (step_hit Missing (World loaded [Calling; Calling]) 0%nat
                1%positive). }
  split; [reflexivity|]. split.
  - pose proof (Hseq init loaded (Return 1%positive) eq_refl) as [_ Hreqs].
    by destruct (Hreqs [(Missing, Request (Some (lit "a")) None None);
                        (fruit_source, Request None (Some 2) (Some 1))])
      as [H _].
  - split.
    + destruct (Htwice three_rows eq_refl)
        as (w & l1 & l2 & Hrun & Hloads & Hts & Hne).
      assert (Hall : Forall (fun t => t = Calling) [Calling; Calling])
        by (repeat constructor).
      destruct (Hstart init [Calling; Calling] w eq_refl Hall Hrun)
        as [Hbound Hwhole].
      exists w, l1, l2. split; [exact Hrun|]. split; [exact Hts|].
      split; [simpl in Hbound; lia|].
      apply (Hwhole three_rows 1%nat l2 eq_refl). by rewrite Hts.
    + split; [exact Hsteps|].
      by destruct (Hstored (World loaded [Calling; Calling])
                     (World loaded [Finished (Return 1%positive); Calling])
                     1%positive (items_of_rows three_rows) eq_refl eq_refl
                     Hsteps) as [H _].
Defined.
